(** * A shallow embedding of the Calculator REPL

    The calculator reads a line, scans it on demand into tokens
    ([tokenStream.h]), and parses and evaluates it in one pass with a
    recursive-descent evaluator ([main.cpp]) over a table of variables
    ([variable.h]).

    - A C++ [double] is an IEEE 754 binary64 number: Rocq's primitive
      [float], with the round-to-nearest-even operations of [PrimFloat].
    - An [std::istream] over a string is the text still to be read together
      with the [eofbit] and [failbit] flags.
    - A C++ function that mutates its receiver and may throw is a function
      from the state to an outcome and the state it leaves behind; the state
      survives a [throw], as the objects do in C++.
    - The loops of the evaluator and the recursion through parentheses are
      bounded by a [nat] of fuel; [Timeout] is the outcome of running out.
      [evaluate] runs with more fuel than characters in the line, which is
      always enough ([evaluate_terminates]), and more fuel changes nothing
      ([evaluate_any_fuel]). *)

From Stdlib Require Import ZArith Bool List String Ascii Lia.
From Stdlib Require Import PrimFloat SpecFloat FloatOps FloatAxioms.
Import ListNotations.

Local Open Scope bool_scope.

(** ** Binary64 arithmetic the standard library provides *)

Definition double := float.

Module Double.

(** [numeric_limits<double>::max()]. *)
Definition max : double := 0x1.fffffffffffffp1023%float.

(** [fmod(x, y)] of the C library: the remainder of the division of [x]
    by [y] truncated towards zero.  The result is exact, has the sign of
    [x] and a magnitude below that of [y]. *)
Definition fmod (x y : double) : double :=
  match Prim2SF x, Prim2SF y with
  | S754_nan, _ | _, S754_nan => nan
  | S754_infinity _, _ => nan
  | _, S754_zero _ => nan
  | S754_zero _, _ => x
  | S754_finite _ _ _, S754_infinity _ => x
  | S754_finite sx mx ex, S754_finite _ my ey =>
      let e := Z.min ex ey in
      let r := Z.modulo (Z.shiftl (Zpos mx) (ex - e))
                        (Z.shiftl (Zpos my) (ey - e)) in
      match r with
      | Zpos p => SF2Prim (S754_finite sx p e)
      | _ => SF2Prim (S754_zero sx)
      end
  end.

(** The binary64 number nearest to [n / d] (ties to even). *)
Definition nearest_ratio (n d : positive) : spec_float :=
  SFdiv prec emax (S754_finite false n 0) (S754_finite false d 0).

(** The binary64 number nearest to [m * 10 ^ e10], for [0 <= m]: what
    [strtod] makes of a decimal literal with digits [m]. *)
Definition of_decimal (m e10 : Z) : spec_float :=
  match m with
  | Zpos p =>
      if (0 <=? e10)%Z
      then nearest_ratio (Z.to_pos (m * 10 ^ e10)) 1
      else nearest_ratio p (Z.to_pos (10 ^ (- e10)))
  | _ => S754_zero false
  end.

End Double.

(** ** Characters: the classification functions of [<cctype>], "C" locale *)

Definition in_range (lo hi c : ascii) : bool :=
  (nat_of_ascii lo <=? nat_of_ascii c)%nat && (nat_of_ascii c <=? nat_of_ascii hi)%nat.

Definition isdigit (c : ascii) : bool := in_range "0" "9" c.

Definition isalpha (c : ascii) : bool := in_range "a" "z" c || in_range "A" "Z" c.

(** Space, and the control characters from horizontal tab (9) to carriage
    return (13). *)
Definition isspace (c : ascii) : bool :=
  Ascii.eqb c " " || in_range (ascii_of_nat 9) (ascii_of_nat 13) c.

Definition digit_value (c : ascii) : Z := Z.of_nat (nat_of_ascii c - nat_of_ascii "0").

(** ** The input stream: [std::istringstream] *)

(** The stream follows the C++ standard for [basic_istream] and, where the
    standard leaves room (which characters a failed conversion takes), the
    GNU implementation of [num_get].  Putting back the character just
    extracted always succeeds on a string stream. *)
Record istream := mk_istream {
  pending : string;     (* the characters not yet extracted *)
  eofbit : bool;
  failbit : bool
}.

Module IStream.

Definition good (s : istream) : bool := negb (eofbit s) && negb (failbit s).

Definition eof (s : istream) : bool := eofbit s.

(** [istringstream s(input)]. *)
Definition open (input : string) : istream :=
  {| pending := input; eofbit := false; failbit := false |}.

Definition set_fail (s : istream) : istream :=
  {| pending := pending s; eofbit := eofbit s; failbit := true |}.

(** The stream after an extraction has met the end of the input. *)
Definition at_end : istream := {| pending := ""; eofbit := true; failbit := true |}.

Fixpoint skipws (s : string) : string :=
  match s with
  | String c r => if isspace c then skipws r else s
  | EmptyString => EmptyString
  end.

(** [s >> ch]: skips white space and extracts one character.  Nothing is
    stored in [ch] when the stream is not good or ends first. *)
Definition extract_char (s : istream) : option ascii * istream :=
  if good s then
    match skipws (pending s) with
    | EmptyString => (None, at_end)
    | String c r => (Some c, {| pending := r; eofbit := false; failbit := false |})
    end
  else (None, set_fail s).

(** [s.get(ch)]: extracts one character, white space included. *)
Definition get (s : istream) : option ascii * istream :=
  if good s then
    match pending s with
    | EmptyString => (None, at_end)
    | String c r => (Some c, {| pending := r; eofbit := false; failbit := false |})
    end
  else (None, set_fail s).

(** [s.putback(c)]: clears [eofbit], then makes [c] the next character to
    be extracted, unless the stream has failed. *)
Definition putback (c : ascii) (s : istream) : istream :=
  if failbit s then {| pending := pending s; eofbit := false; failbit := true |}
  else {| pending := String c (pending s); eofbit := false; failbit := false |}.

(** The longest run of decimal digits at the front of [s]: its value, its
    length, and what follows it. *)
Fixpoint digits (s : string) (acc : Z) (len : nat) : Z * nat * string :=
  match s with
  | String c r => if isdigit c then digits r (10 * acc + digit_value c)%Z (S len)
                  else (acc, len, s)
  | EmptyString => (acc, len, s)
  end.

Definition sign (s : string) : bool * string :=
  match s with
  | String c r =>
      if Ascii.eqb c "-" then (true, r)
      else if Ascii.eqb c "+" then (false, r)
      else (false, s)
  | EmptyString => (false, s)
  end.

(** The digits after a decimal point, when one comes next: the value of
    all the digits so far, the number of those after the point, the rest. *)
Definition fraction (s : string) (ip : Z) : Z * nat * string :=
  match s with
  | String c r => if Ascii.eqb c "." then digits r ip 0 else (ip, 0%nat, s)
  | EmptyString => (ip, 0%nat, s)
  end.

(** An exponent, when [e] or [E] comes next: its value, the number of its
    digits, the rest. *)
Definition exponent (s : string) : option (Z * nat) * string :=
  match s with
  | String c r =>
      if Ascii.eqb c "e" || Ascii.eqb c "E" then
        let '(eneg, r0) := sign r in
        let '(e, elen, r1) := digits r0 0%Z 0 in
        (Some (if eneg then (- e)%Z else e, elen), r1)
      else (None, s)
  | EmptyString => (None, s)
  end.

(** The characters [num_get] accumulates for a [double]: an optional
    sign, digits with at most one decimal point and, once a digit has been
    seen, [e] or [E] with an optional sign and digits.  The result is the
    value [strtod] gives them when it accepts them all ([None] otherwise)
    and the characters left in the stream. *)
Definition scan_double (s : string) : option spec_float * string :=
  let '(neg, s0) := sign s in
  let '(ip, ilen, s1) := digits s0 0%Z 0 in
  let '(m, flen, s2) := fraction s1 ip in
  let mantissa := negb (ilen + flen =? 0)%nat in
  let '(ex, s3) := if mantissa then exponent s2 else (None, s2) in
  let e10 :=
    match ex with
    | None => Some 0%Z
    | Some (e, elen) => if (elen =? 0)%nat then None else Some e
    end in
  match mantissa, e10 with
  | true, Some e =>
      let v := Double.of_decimal m (e - Z.of_nat flen) in
      (Some (if neg then SFopp v else v), s3)
  | _, _ => (None, s3)
  end.

(** [s >> val] for a [double].  Since C++11 a failed conversion stores
    zero and a value out of range stores the largest [double]; both set
    [failbit].  [eofbit] is set when the scan reached the end of input. *)
Definition extract_double (s : istream) : option double * istream :=
  if good s then
    match skipws (pending s) with
    | EmptyString => (None, at_end)
    | String c r =>
        let '(v, rest) := scan_double (String c r) in
        let ended := match rest with EmptyString => true | _ => false end in
        match v with
        | Some (S754_infinity sg) =>
            (Some (if sg then (- Double.max)%float else Double.max),
             {| pending := rest; eofbit := ended; failbit := true |})
        | Some x => (Some (SF2Prim x), {| pending := rest; eofbit := ended; failbit := false |})
        | None => (Some 0%float, {| pending := rest; eofbit := ended; failbit := true |})
        end
    end
  else (None, set_fail s).

End IStream.

(** ** Outcomes and stateful computations *)

(** Everything the program throws is a [std::runtime_error] with a message. *)
Inductive exception : Type :=
| runtime_error (what : string).

(** The error kinds of the specification, by the message thrown. *)
Definition LexError : exception := runtime_error "Unexpected token.".
Definition InternalError : exception :=
  runtime_error "Called pushfront with the buffer already full.".
Definition DivisionByZeroError : exception := runtime_error "Division by zero".
Definition UndefinedVariableError (name : string) : exception :=
  runtime_error ("Undefined variable '" ++ name ++ "'").

(** How a call ends. *)
Inductive outcome (A : Type) : Type :=
| Ret (a : A)             (* the call returns [a] *)
| Throw (e : exception)   (* the call exits with the exception [e] *)
| Undefined               (* the call reads a variable that was never written *)
| Timeout.                (* the fuel of the model ran out *)

Arguments Ret {A} a.
Arguments Throw {A} e.
Arguments Undefined {A}.
Arguments Timeout {A}.

(** A computation over a mutable state [S]. *)
Definition M (S A : Type) : Type := S -> outcome A * S.

Definition ret {S A} (a : A) : M S A := fun s => (Ret a, s).

Definition throw {S A} (e : exception) : M S A := fun s => (Throw e, s).

Definition bind {S A B} (m : M S A) (k : A -> M S B) : M S B :=
  fun s =>
    match m s with
    | (Ret a, s') => k a s'
    | (Throw e, s') => (Throw e, s')
    | (Undefined, s') => (Undefined, s')
    | (Timeout, s') => (Timeout, s')
    end.

Declare Scope comp_scope.
Delimit Scope comp_scope with comp.
Notation "x <- m ;; k" := (bind m (fun x => k))
  (at level 61, m at next level, right associativity) : comp_scope.
Notation "m ;;; k" := (bind m (fun _ => k))
  (at level 61, right associativity) : comp_scope.

(** ** Tokens *)

Inductive TokenType : Type :=
| ADD | SUB | MUL | DIV | MOD | LPAREN | RPAREN | NUMBER
| INPUT_EOF | UNKNOWN | KW_LET | EQUALS | NAME.

Definition TokenType_eqb (a b : TokenType) : bool :=
  match a, b with
  | ADD, ADD | SUB, SUB | MUL, MUL | DIV, DIV | MOD, MOD
  | LPAREN, LPAREN | RPAREN, RPAREN | NUMBER, NUMBER
  | INPUT_EOF, INPUT_EOF | UNKNOWN, UNKNOWN | KW_LET, KW_LET
  | EQUALS, EQUALS | NAME, NAME => true
  | _, _ => false
  end.

Record Token := mk_Token {
  kind : TokenType;
  value : double;
  name : string
}.

(** The three constructors of [Token]. *)
Definition Token_of_type (type : TokenType) : Token :=
  {| kind := type; value := 0%float; name := "" |}.
Definition Token_of_double (val : double) : Token :=
  {| kind := NUMBER; value := val; name := "" |}.
Definition Token_of_name (n : string) : Token :=
  {| kind := NAME; value := 0%float; name := n |}.

(** ** The token scanner *)

Record TokenStream := mk_TokenStream {
  inputStream : istream;
  bufferFull : bool;
  buffer : Token
}.

Module TokenStream.

Definition new (input : istream) : TokenStream :=
  {| inputStream := input; bufferFull := false; buffer := Token_of_type INPUT_EOF |}.

Definition set_inputStream (ts : TokenStream) (s : istream) : TokenStream :=
  {| inputStream := s; bufferFull := bufferFull ts; buffer := buffer ts |}.

(** The loop of [readVariableOrKeyword] over the characters still in the
    stream: [get(ch)] takes the next one, which is appended to the name or
    put back. *)
Fixpoint read_name (text : string) (n : string) : string * istream :=
  match text with
  | String ch rest =>
      if isalpha ch || isdigit ch then read_name rest (n ++ String ch "")
      else (n, IStream.putback ch {| pending := rest; eofbit := false; failbit := false |})
  | EmptyString => (n, IStream.at_end)
  end.

Definition readVariableOrKeyword (ch : ascii) (s : istream) : Token * istream :=
  let '(n, s') :=
    if IStream.good s then read_name (pending s) (String ch "")
    else (String ch "", IStream.set_fail s) in
  if String.eqb n "let" then (Token_of_type KW_LET, s') else (Token_of_name n, s').

(** The [switch] of [doReadNextToken] on the character read. *)
Definition scan (ch : ascii) (s : istream) : outcome Token * istream :=
  if Ascii.eqb ch "+" then (Ret (Token_of_type ADD), s)
  else if Ascii.eqb ch "-" then (Ret (Token_of_type SUB), s)
  else if Ascii.eqb ch "*" then (Ret (Token_of_type MUL), s)
  else if Ascii.eqb ch "/" then (Ret (Token_of_type DIV), s)
  else if Ascii.eqb ch "%" then (Ret (Token_of_type MOD), s)
  else if Ascii.eqb ch "(" then (Ret (Token_of_type LPAREN), s)
  else if Ascii.eqb ch ")" then (Ret (Token_of_type RPAREN), s)
  else if Ascii.eqb ch "=" then (Ret (Token_of_type EQUALS), s)
  else if isdigit ch || Ascii.eqb ch "." then
    match IStream.extract_double (IStream.putback ch s) with
    | (Some val, s') => (Ret (Token_of_double val), s')
    | (None, s') => (Undefined, s')
    end
  else if isalpha ch then
    let '(t, s') := readVariableOrKeyword ch s in (Ret t, s')
  else (Ret (Token_of_type UNKNOWN), s).

(** Reads the next token from the input stream.  When the extraction of
    [ch] fails without [eofbit], [ch] is read uninitialised. *)
Definition doReadNextToken : M TokenStream Token :=
  fun ts =>
    let '(och, s) := IStream.extract_char (inputStream ts) in
    if IStream.eof s then (Ret (Token_of_type INPUT_EOF), set_inputStream ts s)
    else
      match och with
      | Some ch => let '(r, s') := scan ch s in (r, set_inputStream ts s')
      | None => (Undefined, set_inputStream ts s)
      end.

(** Gets the next token. *)
Definition get : M TokenStream Token :=
  fun ts =>
    if bufferFull ts then
      (Ret (buffer ts),
       {| inputStream := inputStream ts; bufferFull := false; buffer := buffer ts |})
    else
      (nextToken <- doReadNextToken ;;
       if TokenType_eqb (kind nextToken) UNKNOWN
       then throw (runtime_error "Unexpected token.")
       else ret nextToken)%comp ts.

(** Returns the given token to the buffer. *)
Definition putback (token : Token) : M TokenStream unit :=
  fun ts =>
    if bufferFull ts then
      (Throw (runtime_error "Called pushfront with the buffer already full."), ts)
    else
      (Ret tt, {| inputStream := inputStream ts; bufferFull := true; buffer := token |}).

(** [while (doReadNextToken().kind != INPUT_EOF) { }] *)
Fixpoint ignore_loop (fuel : nat) : M TokenStream unit :=
  match fuel with
  | O => fun ts => (Timeout, ts)
  | S fuel' =>
      (t <- doReadNextToken ;;
       if TokenType_eqb (kind t) INPUT_EOF then ret tt else ignore_loop fuel')%comp
  end.

(** Reads and discards tokens. *)
Definition ignore (fuel : nat) (tokenType : TokenType) : M TokenStream unit :=
  fun ts =>
    if bufferFull ts && TokenType_eqb (kind (buffer ts)) tokenType then
      (Ret tt, {| inputStream := inputStream ts; bufferFull := false; buffer := buffer ts |})
    else
      ignore_loop fuel
        {| inputStream := inputStream ts; bufferFull := false; buffer := buffer ts |}.

(** The tokens the buffer holds. *)
Definition buffered (ts : TokenStream) : list Token :=
  if bufferFull ts then [buffer ts] else [].

End TokenStream.

(** ** The table of variables *)

(** [class Variable]. *)
Record Variable_ := mk_Variable {
  var_name : string;
  var_value : double
}.

Record VarTable := mk_VarTable {
  variables : list Variable_
}.

Module VarTable.

(** [VarTable varTable;] *)
Definition empty : VarTable := {| variables := [] |}.

(** The position of the first variable called [n]: the pointer that
    [getVariable] returns, [None] for [nullptr]. *)
Fixpoint getVariable (n : string) (vars : list Variable_) : option nat :=
  match vars with
  | [] => None
  | var :: rest =>
      if String.eqb (var_name var) n then Some O
      else option_map S (getVariable n rest)
  end.

(** [var->value = value] for the variable at position [i]. *)
Fixpoint assign (i : nat) (v : double) (vars : list Variable_) : list Variable_ :=
  match vars, i with
  | [], _ => []
  | var :: rest, O => {| var_name := var_name var; var_value := v |} :: rest
  | var :: rest, S i' => var :: assign i' v rest
  end.

Fixpoint lookup (n : string) (vars : list Variable_) : option double :=
  match vars with
  | [] => None
  | var :: rest => if String.eqb n (var_name var) then Some (var_value var) else lookup n rest
  end.

Definition get (n : string) : M VarTable double :=
  fun vt =>
    (match lookup n (variables vt) with
     | Some v => Ret v
     | None => Throw (runtime_error ("Undefined variable '" ++ n ++ "'"))
     end, vt).

(** The variables after [define(n, v)]: a new variable at the back when
    [getVariable] finds none, the found one assigned otherwise. *)
Definition defined (n : string) (v : double) (vars : list Variable_) : list Variable_ :=
  match getVariable n vars with
  | None => vars ++ [{| var_name := n; var_value := v |}]
  | Some i => assign i v vars
  end.

Definition define (n : string) (v : double) : M VarTable double :=
  fun vt => (Ret v, {| variables := defined n v (variables vt) |}).

Definition size (vt : VarTable) : nat := List.length (variables vt).

Definition names (vt : VarTable) : list string := map var_name (variables vt).

End VarTable.

(** ** The evaluator *)

(** The two objects every evaluation procedure receives by reference. *)
Definition State : Type := TokenStream * VarTable.

Definition on_ts {A} (m : M TokenStream A) : M State A :=
  fun st => let (r, ts') := m (fst st) in (r, (ts', snd st)).

Definition on_vars {A} (m : M VarTable A) : M State A :=
  fun st => let (r, vt') := m (snd st) in (r, (fst st, vt')).

Definition timeout {A} : M State A := fun st => (Timeout, st).

Local Open Scope comp_scope.

Section Loops.

(** The loops of [term] and [expression], over the procedure for the
    operands. *)
Variable operand : M State double.

Fixpoint term_loop (fuel : nat) (left : double) (token : Token) : M State double :=
  match fuel with
  | O => timeout
  | S fuel' =>
      match kind token with
      | MUL =>
          right <- operand ;;
          token' <- on_ts TokenStream.get ;;
          term_loop fuel' (left * right)%float token'
      | DIV =>
          right <- operand ;;
          if (right =? 0)%float then throw (runtime_error "Division by zero")
          else
            token' <- on_ts TokenStream.get ;;
            term_loop fuel' (left / right)%float token'
      | MOD =>
          right <- operand ;;
          if (right =? 0)%float then throw (runtime_error "Division by zero")
          else
            token' <- on_ts TokenStream.get ;;
            term_loop fuel' (Double.fmod left right) token'
      | _ =>
          on_ts (TokenStream.putback token) ;;;
          ret left
      end
  end.

Fixpoint expression_loop (fuel : nat) (left : double) (token : Token) : M State double :=
  match fuel with
  | O => timeout
  | S fuel' =>
      match kind token with
      | ADD =>
          right <- operand ;;
          token' <- on_ts TokenStream.get ;;
          expression_loop fuel' (left + right)%float token'
      | SUB =>
          right <- operand ;;
          token' <- on_ts TokenStream.get ;;
          expression_loop fuel' (left - right)%float token'
      | _ =>
          on_ts (TokenStream.putback token) ;;;
          ret left
      end
  end.

End Loops.

(** [term] and [expression] over a given [primary]. *)
Definition term_of (primary : M State double) (fuel : nat) : M State double :=
  left <- primary ;;
  token <- on_ts TokenStream.get ;;
  term_loop primary fuel left token.

Definition expression_of (primary : M State double) (fuel : nat) : M State double :=
  left <- term_of primary fuel ;;
  token <- on_ts TokenStream.get ;;
  expression_loop (term_of primary fuel) fuel left token.

(** handles 'primary ->' production rules *)
Fixpoint primary (fuel : nat) : M State double :=
  match fuel with
  | O => timeout
  | S fuel' =>
      token <- on_ts TokenStream.get ;;
      match kind token with
      | ADD => primary fuel'
      | SUB => v <- primary fuel' ;; ret (- v)%float
      | LPAREN =>
          expr <- expression_of (primary fuel') fuel' ;;
          token' <- on_ts TokenStream.get ;;
          if negb (TokenType_eqb (kind token') RPAREN)
          then throw (runtime_error "Missing a right parenthesis.")
          else ret expr
      | NUMBER => ret (value token)
      | NAME => on_vars (VarTable.get (name token))
      | _ =>
          on_ts (TokenStream.putback token) ;;;
          throw (runtime_error "Expected a primary")
      end
  end.

(** handles 'term ->' production rules *)
Definition term (fuel : nat) : M State double := term_of (primary fuel) fuel.

(** handles 'expression ->' production rules *)
Definition expression (fuel : nat) : M State double := expression_of (primary fuel) fuel.

(** handles 'declaration ->' production rule *)
Definition declaration (fuel : nat) : M State double :=
  token <- on_ts TokenStream.get ;;
  if negb (TokenType_eqb (kind token) NAME) then
    on_ts (TokenStream.putback token) ;;;
    throw (runtime_error "Expected a variable name after 'let' keyword.")
  else
    let n := name token in
    token' <- on_ts TokenStream.get ;;
    if negb (TokenType_eqb (kind token') EQUALS) then
      on_ts (TokenStream.putback token') ;;;
      throw (runtime_error ("Missing '=' in a declaration of '" ++ n ++ "'"))
    else
      v <- expression fuel ;;
      on_vars (VarTable.define n v) ;;;
      ret v.

(** handles 'statement ->' production rules *)
Definition statement (fuel : nat) : M State double :=
  token <- on_ts TokenStream.get ;;
  match kind token with
  | KW_LET => declaration fuel
  | _ =>
      on_ts (TokenStream.putback token) ;;;
      expression fuel
  end.

(** The loop of [calculation], over the procedure for one statement. *)
Fixpoint calculation_loop (stmt : M State double) (fuel : nat) (result : double)
  : M State double :=
  match fuel with
  | O => timeout
  | S fuel' =>
      token <- on_ts TokenStream.get ;;
      if TokenType_eqb (kind token) INPUT_EOF then ret result
      else
        on_ts (TokenStream.putback token) ;;;
        result' <- stmt ;;
        calculation_loop stmt fuel' result'
  end.

(** handles 'Calculation ->' production rules *)
Definition calculation (fuel : nat) : M State double :=
  calculation_loop (statement fuel) fuel 0%float.

(** The entry point: one line of input evaluated against the table, as
    [main] and [testStatement] do with a fresh [istringstream] and
    [TokenStream].  The fuel is beyond what a line of that length can use
    (see [evaluate_terminates]). *)
Definition evaluate (input : string) (varTable : VarTable) : outcome double * VarTable :=
  let (r, st) := calculation (S (String.length input))
                   (TokenStream.new (IStream.open input), varTable) in
  (r, snd st).

(** [testStatement(input, expected)]: whether the test prints [PASS], that
    is, whether the line evaluates on a fresh table to a value equal to
    [expected]; an exception makes it fail. *)
Definition testStatement (input : string) (expected : double) : bool :=
  match fst (evaluate input VarTable.empty) with
  | Ret actual => (expected =? actual)%float
  | _ => false
  end.

Arguments testStatement input%_string expected%_float.

(** The tests that [test()] runs, in order. *)
Definition test : list bool :=
  [ testStatement "2" 2;
    testStatement "1+2" 3;
    testStatement "1-2" (-1);
    testStatement "0+2" 2;
    testStatement "452+1000" 1452;
    testStatement "6*3+2" 20;
    testStatement "2+6*3" 20;
    testStatement "7/3" (7 / 3);
    testStatement "6/3+2" 4;
    testStatement "2+6/3" 4;
    testStatement "+1" 1;
    testStatement "-1" (-1);
    testStatement "-1--1" 0;
    testStatement "8%3" 2;
    testStatement "-8%3" (-2);
    testStatement "8%-3" 2;
    testStatement "-8%-3" (-2);
    testStatement "let x = 3" 3;
    testStatement "let x = 2 (x + 2) * 3" 12 ].

(** The loop of [main] over the lines [getline] still finds in [cin]: what
    each prompt prints (a result on [cout] or the message of an exception
    on [cerr]) and the table in the end.  The line [q] leaves the loop.
    When [cin] is exhausted [getline] fails and leaves [input] empty, and
    the body runs once more on that empty line before [while (cin)] ends
    the loop. *)
Fixpoint main_loop (lines : list string) (varTable : VarTable)
  : list (outcome double) * VarTable :=
  match lines with
  | [] => let (r, vt) := evaluate "" varTable in ([r], vt)
  | input :: rest =>
      if String.eqb input "q" then ([], varTable)
      else
        let (r, vt) := evaluate input varTable in
        let (out, vt') := main_loop rest vt in
        (r :: out, vt')
  end.

(** ** The vocabulary of the properties *)

(** Two tables that give every name the same value. *)
Definition agree (vt1 vt2 : VarTable) : Prop :=
  forall n, VarTable.lookup n (variables vt1) = VarTable.lookup n (variables vt2).

(** [reads_table m]: [m] leaves the table as it was, however it ends, and
    what it does depends on the table only through the values of names. *)
Definition reads_table {A} (m : M State A) : Prop :=
  forall ts vt1 vt2, agree vt1 vt2 ->
    exists r ts', m (ts, vt1) = (r, (ts', vt1)) /\ m (ts, vt2) = (r, (ts', vt2)).

(** [keeps_vars m]: however [m] ends, the table is as it was. *)
Definition keeps_vars {A} (m : M State A) : Prop :=
  forall st r st', m st = (r, st') -> snd st' = snd st.

(** [throw_keeps_vars m]: when [m] ends in an exception, the table is as
    it was. *)
Definition throw_keeps_vars {A} (m : M State A) : Prop :=
  forall st e st', m st = (Throw e, st') -> snd st' = snd st.

(** [completes stmt k st st']: from [st], [k] statements in a row are read
    and return, leaving [st']. *)
Inductive completes (stmt : M State double) : nat -> State -> State -> Prop :=
| completes_none st : completes stmt O st st
| completes_next k st t st1 st2 v st3 st' :
    on_ts TokenStream.get st = (Ret t, st1) ->
    kind t <> INPUT_EOF ->
    on_ts (TokenStream.putback t) st1 = (Ret tt, st2) ->
    stmt st2 = (Ret v, st3) ->
    completes stmt k st3 st' ->
    completes stmt (S k) st st'.

(** [fails stmt st e st']: from [st], the next statement throws [e], in the
    scanner when its first token is read or in [stmt] itself, leaving
    [st']. *)
Definition fails (stmt : M State double) (st : State) (e : exception) (st' : State)
  : Prop :=
  on_ts TokenStream.get st = (Throw e, st')
  \/ exists t st1 st2,
       on_ts TokenStream.get st = (Ret t, st1)
       /\ kind t <> INPUT_EOF
       /\ on_ts (TokenStream.putback t) st1 = (Ret tt, st2)
       /\ stmt st2 = (Throw e, st').

(** What a token adds to the input still to be read when it is put back. *)
Definition weight (t : Token) : nat :=
  if TokenType_eqb (kind t) INPUT_EOF then 0 else 1.

(** The input still to be read: the characters of the stream and the token
    in the buffer. *)
Definition remaining (ts : TokenStream) : nat :=
  String.length (pending (inputStream ts))
  + (if bufferFull ts then weight (buffer ts) else 0).

(** The input still to be read in a state of the evaluator. *)
Definition mu (st : State) : nat := remaining (fst st).

(** [total P m Q]: from a state in [P], [m] does not run out of fuel, and
    when it returns [a] it leaves a state in [Q a]. *)
Definition total {A} (P : State -> Prop) (m : M State A) (Q : A -> State -> Prop) : Prop :=
  forall st, P st ->
    match m st with
    | (Ret a, st') => Q a st'
    | (Timeout, _) => False
    | (_, _) => True
    end.

(** [consumes N m]: with less than [N] still to be read, [m] does not run
    out of fuel, and it returns only after it has read something. *)
Definition consumes {A} (N : nat) (m : M State A) : Prop :=
  forall x, (x < N)%nat ->
    total (fun st => (mu st <= x)%nat) m (fun _ st' => (S (mu st') <= x)%nat).

(** [extends m m']: [m'] ends as [m] does whenever [m] does not run out of
    fuel. *)
Definition extends {A} (m m' : M State A) : Prop :=
  forall st r st', m st = (r, st') -> r <> Timeout -> m' st = (r, st').

(** The characters a token can begin with. *)
Definition recognised (c : ascii) : bool :=
  Ascii.eqb c "+" || Ascii.eqb c "-" || Ascii.eqb c "*" || Ascii.eqb c "/"
  || Ascii.eqb c "%" || Ascii.eqb c "(" || Ascii.eqb c ")" || Ascii.eqb c "="
  || isdigit c || Ascii.eqb c "." || isalpha c.

(** Letters and digits only. *)
Fixpoint all_alnum (s : string) : bool :=
  match s with
  | String c r => (isalpha c || isdigit c) && all_alnum r
  | EmptyString => true
  end.

(** No letter or digit comes first. *)
Definition ends_name (s : string) : bool :=
  match s with
  | String c _ => negb (isalpha c || isdigit c)
  | EmptyString => true
  end.

(** The kinds of token that continue a term or an expression. *)
Definition is_operator (k : TokenType) : bool :=
  match k with
  | ADD | SUB | MUL | DIV | MOD => true
  | _ => false
  end.

(** The exceptions that report an error in the line: every [throw] of
    [main.cpp], [variable.h] and [tokenStream.h] but the one of [putback]. *)
Definition error_in_line (e : exception) : Prop :=
  e = LexError
  \/ e = runtime_error "Missing a right parenthesis."
  \/ e = runtime_error "Expected a primary"
  \/ e = DivisionByZeroError
  \/ (exists n, e = UndefinedVariableError n)
  \/ e = runtime_error "Expected a variable name after 'let' keyword."
  \/ (exists n, e = runtime_error ("Missing '=' in a declaration of '" ++ n ++ "'")).

(** [buffer_safe P m Q]: from a state in [P], [m] throws nothing but an
    error in the line, so not the internal error of [putback], and when it
    returns [a] it leaves a state in [Q a]. *)
Definition buffer_safe {A} (P : State -> Prop) (m : M State A) (Q : A -> State -> Prop)
  : Prop :=
  forall st, P st ->
    match m st with
    | (Ret a, st') => Q a st'
    | (Throw e, _) => error_in_line e
    | (_, _) => True
    end.

(** The buffer of the scanner holds no token. *)
Definition buffer_empty (st : State) : Prop := bufferFull (fst st) = false.

(** [respects_names m]: on tables that agree, [m] ends in the same way, with
    the scanner in the same state and with tables that agree again. *)
Definition respects_names {A} (m : M State A) : Prop :=
  forall ts vt1 vt2, agree vt1 vt2 ->
    exists r ts' vt1' vt2',
      m (ts, vt1) = (r, (ts', vt1')) /\ m (ts, vt2) = (r, (ts', vt2'))
      /\ agree vt1' vt2'.

(** The condition that always holds. *)
Definition anything {A} : A -> State -> Prop := fun _ _ => True.

(** No line is the [q] that leaves the loop of [main]. *)
Definition no_quit (lines : list string) : bool :=
  forallb (fun input => negb (String.eqb input "q")) lines.

(** * Properties *)

(** ** The model at work *)

Example extract_double_ex1 :
  IStream.extract_double (IStream.open " 12.50e1+3")
  = (Some 125%float, {| pending := "+3"; eofbit := false; failbit := false |}).
Proof. vm_compute. reflexivity. Qed.

Example extract_double_ex2 :
  IStream.extract_double (IStream.open "0.1")
  = (Some 0x1.999999999999ap-4%float, {| pending := ""; eofbit := true; failbit := false |}).
Proof. vm_compute. reflexivity. Qed.

Example extract_double_ex3 :
  IStream.extract_double (IStream.open ".e5")
  = (Some 0%float, {| pending := "e5"; eofbit := false; failbit := true |}).
Proof. vm_compute. reflexivity. Qed.

Example extract_double_ex4 :
  IStream.extract_double (IStream.open "1e400 ")
  = (Some Double.max, {| pending := " "; eofbit := false; failbit := true |}).
Proof. vm_compute. reflexivity. Qed.

Example fmod_ex1 : (Double.fmod 5.5 2 = 1.5 /\ Double.fmod (-7) 0.5 = -0)%float.
Proof. vm_compute. split; reflexivity. Qed.

Example get_ex1 :
  fst (TokenStream.get (TokenStream.new (IStream.open "  let1 = 2")))
  = Ret (Token_of_name "let1").
Proof. vm_compute. reflexivity. Qed.

Example get_ex2 :
  TokenStream.get (TokenStream.new (IStream.open "let(2"))
  = (Ret (Token_of_type KW_LET),
     TokenStream.new {| pending := "(2"; eofbit := false; failbit := false |}).
Proof. vm_compute. reflexivity. Qed.

Example get_ex3 :
  fst (TokenStream.get (TokenStream.new (IStream.open " ; 1"))) = Throw LexError.
Proof. vm_compute. reflexivity. Qed.

(** X16: the tests that [test()] runs all pass: each of the nineteen
    calls of [testStatement] finds its expected value. *)
Example tests_of_main : forallb (fun pass => pass) test = true.
Proof. vm_compute. reflexivity. Qed.

Example evaluate_ex1 :
  fst (evaluate "--1" VarTable.empty) = Ret 1%float
  /\ fst (evaluate "- -1" VarTable.empty) = Ret 1%float
  /\ fst (evaluate "." VarTable.empty) = Ret 0%float
  /\ fst (evaluate ".+1" VarTable.empty) = Undefined
  /\ fst (evaluate "(1+2" VarTable.empty) = Throw (runtime_error "Missing a right parenthesis.")
  /\ fst (evaluate "2 + * 3" VarTable.empty) = Throw (runtime_error "Expected a primary")
  /\ fst (evaluate "let 3" VarTable.empty)
     = Throw (runtime_error "Expected a variable name after 'let' keyword.")
  /\ fst (evaluate "let ab 3" VarTable.empty)
     = Throw (runtime_error "Missing '=' in a declaration of 'ab'").
Proof. vm_compute. repeat split; reflexivity. Qed.


(** ** The table of variables *)

Lemma getVariable_none_lookup n vars :
  VarTable.getVariable n vars = None -> VarTable.lookup n vars = None.
Proof.
  induction vars as [|var rest IH]; simpl; [reflexivity|].
  rewrite (String.eqb_sym n).
  destruct (String.eqb (var_name var) n); [discriminate|].
  destruct (VarTable.getVariable n rest); [discriminate|]. auto.
Qed.

Lemma lookup_app_absent n v vars :
  VarTable.getVariable n vars = None ->
  VarTable.lookup n (vars ++ [{| var_name := n; var_value := v |}]) = Some v.
Proof.
  induction vars as [|var rest IH]; simpl.
  - now rewrite String.eqb_refl.
  - rewrite (String.eqb_sym n).
    destruct (String.eqb (var_name var) n); [discriminate|].
    destruct (VarTable.getVariable n rest); [discriminate|]. auto.
Qed.

Lemma lookup_assign_found n v vars i :
  VarTable.getVariable n vars = Some i ->
  VarTable.lookup n (VarTable.assign i v vars) = Some v.
Proof.
  revert i. induction vars as [|var rest IH]; simpl; intros i H; [discriminate|].
  destruct (String.eqb (var_name var) n) eqn:E.
  - injection H as <-. simpl. now rewrite String.eqb_sym, E.
  - destruct (VarTable.getVariable n rest) as [j|]; [|discriminate].
    injection H as <-. simpl. rewrite String.eqb_sym, E. auto.
Qed.

Lemma lookup_defined n v vars :
  VarTable.lookup n (VarTable.defined n v vars) = Some v.
Proof.
  unfold VarTable.defined.
  destruct (VarTable.getVariable n vars) eqn:E.
  - now apply lookup_assign_found.
  - now apply lookup_app_absent.
Qed.

Lemma assign_names i v vars :
  map var_name (VarTable.assign i v vars) = map var_name vars.
Proof.
  revert i. induction vars as [|var rest IH]; intros [|i]; simpl; f_equal; auto.
Qed.

Lemma assign_length i v vars :
  List.length (VarTable.assign i v vars) = List.length vars.
Proof. rewrite <- (length_map var_name), assign_names. apply length_map. Qed.

Lemma getVariable_none_not_in n vars :
  VarTable.getVariable n vars = None -> ~ In n (map var_name vars).
Proof.
  induction vars as [|var rest IH]; simpl; [tauto|].
  destruct (String.eqb_spec (var_name var) n) as [|Hne]; [discriminate|].
  destruct (VarTable.getVariable n rest); [discriminate|].
  intros _ [H|H]; [contradiction | now apply IH].
Qed.

(** In place: the variable at the position found is the only one that
    changes, and only in its value. *)
Lemma assign_nth i v vars j :
  nth_error (VarTable.assign i v vars) j =
  if (j =? i)%nat
  then option_map (fun var => {| var_name := var_name var; var_value := v |}) (nth_error vars j)
  else nth_error vars j.
Proof.
  revert i j. induction vars as [|var rest IH]; intros [|i] [|j]; simpl; auto.
  now destruct (j =? i)%nat.
Qed.

Lemma getVariable_some_name n vars i :
  VarTable.getVariable n vars = Some i ->
  exists var, nth_error vars i = Some var /\ var_name var = n.
Proof.
  revert i. induction vars as [|var rest IH]; simpl; intros i H; [discriminate|].
  destruct (String.eqb_spec (var_name var) n) as [Heq|Hne].
  - injection H as <-. now exists var.
  - destruct (VarTable.getVariable n rest) as [j|]; [|discriminate].
    injection H as <-. simpl. auto.
Qed.

(** C8: [define] inserts an absent name at the back and assigns a present
    one in place, so that redefinition keeps the number of variables and
    their names; it returns the value, which [get] then returns, and names
    that were unique stay unique. *)
Theorem define_inserts_or_updates (n : string) (v : double) (vt : VarTable) :
  let vt' := snd (VarTable.define n v vt) in
  fst (VarTable.define n v vt) = Ret v
  /\ VarTable.get n vt' = (Ret v, vt')
  /\ (VarTable.lookup n (variables vt) = None ->
      variables vt' = variables vt ++ [{| var_name := n; var_value := v |}])
  /\ (VarTable.lookup n (variables vt) <> None ->
      VarTable.size vt' = VarTable.size vt
      /\ VarTable.names vt' = VarTable.names vt
      /\ exists i var, nth_error (variables vt) i = Some var /\ var_name var = n
           /\ variables vt' = VarTable.assign i v (variables vt)
           /\ nth_error (variables vt') i = Some {| var_name := n; var_value := v |}
           /\ forall j, j <> i -> nth_error (variables vt') j = nth_error (variables vt) j)
  /\ (NoDup (VarTable.names vt) -> NoDup (VarTable.names vt')).
Proof.
  simpl. unfold VarTable.get, VarTable.size, VarTable.names. simpl.
  rewrite lookup_defined. unfold VarTable.defined.
  split; [reflexivity|]. split; [reflexivity|].
  destruct (VarTable.getVariable n (variables vt)) as [i|] eqn:E.
  - split; [|split].
    + intro H. destruct (getVariable_some_name _ _ _ E) as (var & Hi & Hn).
      exfalso. clear E. revert i Hi H.
      induction (variables vt) as [|w rest IH]; intros [|i] Hi H; simpl in *; try discriminate.
      * injection Hi as ->. rewrite Hn, String.eqb_refl in H. discriminate.
      * destruct (String.eqb n (var_name w)); [discriminate|]. eauto.
    + intros _. rewrite assign_length, assign_names.
      split; [reflexivity|]. split; [reflexivity|].
      destruct (getVariable_some_name _ _ _ E) as (var & Hi & Hn).
      exists i, var. repeat split; auto.
      * rewrite assign_nth, Nat.eqb_refl, Hi. simpl. now rewrite Hn.
      * intros j Hj. rewrite assign_nth.
        destruct (Nat.eqb_spec j i); [contradiction|reflexivity].
    + now rewrite assign_names.
  - split; [reflexivity|]. split.
    + intro H. contradict H. now apply getVariable_none_lookup.
    + rewrite map_app. simpl. intro H.
      apply NoDup_app; [assumption | repeat constructor; simpl; tauto |].
      intros x Hx [<-|[]]. now apply (getVariable_none_not_in _ _ E).
Qed.

Lemma define_inserts_or_updates_witness :
  let vt := {| variables := [ {| var_name := "x"; var_value := 3%float |};
                             {| var_name := "y"; var_value := 1%float |} ] |} in
  VarTable.lookup "y" (variables vt) <> None
  /\ NoDup (VarTable.names vt)
  /\ VarTable.size (snd (VarTable.define "y" 7%float vt)) = 2%nat
  /\ NoDup (VarTable.names (snd (VarTable.define "y" 7%float vt))).
Proof.
  intro vt.
  assert (Hp : VarTable.lookup "y" (variables vt) <> None) by (vm_compute; discriminate).
  assert (Hd : NoDup (VarTable.names vt)).
  { vm_compute. repeat constructor; simpl; intuition discriminate. }
  destruct (define_inserts_or_updates "y" 7%float vt) as (_ & _ & _ & Hu & Hn).
  split; [exact Hp|]. split; [exact Hd|]. split.
  - exact (proj1 (Hu Hp)).
  - exact (Hn Hd).
Defined.

(** ** The one-slot buffer of the scanner *)

Lemma get_leaves_buffer_empty ts r ts' :
  TokenStream.get ts = (r, ts') -> bufferFull ts' = false.
Proof.
  unfold TokenStream.get, bind, TokenStream.doReadNextToken, throw, ret.
  destruct (bufferFull ts) eqn:E.
  - intros [= _ <-]. reflexivity.
  - destruct (IStream.extract_char (inputStream ts)) as [och s].
    destruct (IStream.eof s).
    + simpl. intros [= _ <-]. exact E.
    + destruct och as [ch|].
      * destruct (TokenStream.scan ch s) as [[t| | |] s']; simpl;
          [destruct (TokenType_eqb (kind t) UNKNOWN)| | |]; intros [= _ <-]; exact E.
      * intros [= _ <-]. exact E.
Qed.

(** C9: a token put back into the empty buffer is the one the next [get]
    returns, and that [get] empties the buffer without touching the input;
    [putback] on the occupied buffer throws the internal error and changes
    nothing; the buffer never holds more than one token. *)
Theorem putback_then_get (t : Token) (ts : TokenStream) :
  (bufferFull ts = false ->
   let ts' := {| inputStream := inputStream ts; bufferFull := true; buffer := t |} in
   TokenStream.putback t ts = (Ret tt, ts')
   /\ TokenStream.buffered ts' = [t]
   /\ TokenStream.get ts'
      = (Ret t, {| inputStream := inputStream ts; bufferFull := false; buffer := t |})
   /\ TokenStream.buffered (snd (TokenStream.get ts')) = [])
  /\ (bufferFull ts = true ->
      TokenStream.putback t ts = (Throw InternalError, ts))
  /\ (List.length (TokenStream.buffered (snd (TokenStream.putback t ts))) <= 1)%nat
  /\ (List.length (TokenStream.buffered (snd (TokenStream.get ts))) <= 1)%nat.
Proof.
  split; [|split; [|split]].
  - intros H. unfold TokenStream.putback, TokenStream.get, TokenStream.buffered.
    rewrite H. simpl. auto.
  - intros H. unfold TokenStream.putback. rewrite H. reflexivity.
  - unfold TokenStream.buffered.
    destruct (bufferFull (snd (TokenStream.putback t ts))); simpl; lia.
  - unfold TokenStream.buffered.
    destruct (bufferFull (snd (TokenStream.get ts))); simpl; lia.
Qed.

Lemma putback_then_get_witness :
  let t := Token_of_double 4%float in
  let ts := TokenStream.new (IStream.open "+1") in
  let full := {| inputStream := IStream.open "+1"; bufferFull := true; buffer := t |} in
  TokenStream.putback t ts = (Ret tt, full)
  /\ fst (TokenStream.get full) = Ret t
  /\ TokenStream.putback (Token_of_type MUL) full = (Throw InternalError, full).
Proof.
  intros t ts full.
  destruct (putback_then_get t ts) as (He & _).
  destruct (He eq_refl) as (Hp & _ & Hg & _).
  destruct (putback_then_get (Token_of_type MUL) full) as (_ & Hf & _).
  split; [exact Hp|]. split; [exact (f_equal fst Hg)|]. exact (Hf eq_refl).
Defined.

(** ** Concrete evaluations *)

(** C1: multiplication binds tighter than addition on either side, and
    subtraction folds from the left, whatever the table holds. *)
Theorem precedence_and_left_associativity (vt : VarTable) :
  evaluate "6*3+2" vt = (Ret 20%float, vt)
  /\ evaluate "2+6*3" vt = (Ret 20%float, vt)
  /\ evaluate "10-3-2" vt = (Ret 5%float, vt).
Proof. repeat split; vm_compute; reflexivity. Qed.

(** C4: the remainder takes the sign of the dividend. *)
Theorem modulo_sign_of_dividend (vt : VarTable) :
  evaluate "8%3" vt = (Ret 2%float, vt)
  /\ evaluate "-8%3" vt = (Ret (-2)%float, vt)
  /\ evaluate "8%-3" vt = (Ret 2%float, vt)
  /\ evaluate "-8%-3" vt = (Ret (-2)%float, vt).
Proof. repeat split; vm_compute; reflexivity. Qed.

(** C5 (the code at a failing input): with the buffer empty, [ignore(ADD)]
    on [1+2] does not stop at the [+]: it returns with the whole line
    consumed, and the next token is the end of input, not the [2]. *)
Theorem ignore_reads_to_end_of_input :
  let ts := TokenStream.new (IStream.open "1+2") in
  TokenStream.ignore 4 ADD ts
  = (Ret tt, TokenStream.new {| pending := ""; eofbit := true; failbit := true |})
  /\ fst (TokenStream.get (snd (TokenStream.ignore 4 ADD ts))) = Ret (Token_of_type INPUT_EOF)
  /\ fst (TokenStream.get
            (snd (TokenStream.get (snd (TokenStream.get ts)))))
     = Ret (Token_of_double 2%float).
Proof. vm_compute. repeat split; reflexivity. Qed.

(** ** Sequencing *)


Lemma TokenType_eqb_neq a b : TokenType_eqb a b = false <-> a <> b.
Proof. destruct a, b; simpl; split; congruence. Qed.

Section Sequencing.

Context {S A B : Type}.
Variables (m : M S A) (k : A -> M S B).

Lemma bind_ret s a s' : m s = (Ret a, s') -> bind m k s = k a s'.
Proof. unfold bind. now intros ->. Qed.

Lemma bind_throw s e s' : m s = (Throw e, s') -> bind m k s = (Throw e, s').
Proof. unfold bind. now intros ->. Qed.

(** What [bind m k] does is either what [k] does after [m] returned, or
    the way [m] failed. *)
Lemma bind_inv s r s' :
  bind m k s = (r, s') ->
  (exists a s1, m s = (Ret a, s1) /\ k a s1 = (r, s'))
  \/ (m s = (Throw match r with Throw e => e | _ => LexError end, s')
      /\ exists e, r = Throw e)
  \/ (m s = (Undefined, s') /\ r = Undefined)
  \/ (m s = (Timeout, s') /\ r = Timeout).
Proof.
  unfold bind. destruct (m s) as [[a|e| |] s1]; intros H.
  - left. eauto.
  - right. left. injection H as <- <-. eauto.
  - right. right. left. now injection H as <- <-.
  - right. right. right. now injection H as <- <-.
Qed.

End Sequencing.

Lemma on_ts_eq {A} (m : M TokenStream A) ts vt r ts' :
  m ts = (r, ts') -> on_ts m (ts, vt) = (r, (ts', vt)).
Proof. unfold on_ts. simpl. now intros ->. Qed.

Lemma on_ts_inv {A} (m : M TokenStream A) st r st' :
  on_ts m st = (r, st') -> m (fst st) = (r, fst st') /\ snd st' = snd st.
Proof.
  unfold on_ts. destruct (m (fst st)) as [r0 ts']. now intros [= <- <-].
Qed.

(** ** Which procedures write to the table *)

Lemma agree_refl vt : agree vt vt.
Proof. intro n. reflexivity. Qed.

Lemma reads_keeps {A} (m : M State A) : reads_table m -> keeps_vars m.
Proof.
  intros Hm [ts vt] r st' H.
  destruct (Hm ts vt vt (agree_refl vt)) as (r0 & ts' & H1 & _).
  rewrite H1 in H. now injection H as _ <-.
Qed.

Lemma keeps_throw_keeps {A} (m : M State A) : keeps_vars m -> throw_keeps_vars m.
Proof. intros H st e st'. apply H. Qed.

Lemma reads_ret {A} (a : A) : reads_table (ret a).
Proof. intros ts vt1 vt2 _. now exists (Ret a), ts. Qed.

Lemma reads_throw {A} e : reads_table (@throw State A e).
Proof. intros ts vt1 vt2 _. now exists (Throw e), ts. Qed.

Lemma reads_timeout {A} : reads_table (@timeout A).
Proof. intros ts vt1 vt2 _. now exists Timeout, ts. Qed.

Lemma reads_on_ts {A} (m : M TokenStream A) : reads_table (on_ts m).
Proof.
  intros ts vt1 vt2 _. unfold on_ts. simpl.
  destruct (m ts) as [r ts']. now exists r, ts'.
Qed.

Lemma reads_get n : reads_table (on_vars (VarTable.get n)).
Proof.
  intros ts vt1 vt2 H. unfold on_vars, VarTable.get. simpl.
  rewrite <- (H n). eauto.
Qed.

Lemma reads_bind {A B} (m : M State A) (k : A -> M State B) :
  reads_table m -> (forall a, reads_table (k a)) -> reads_table (bind m k).
Proof.
  intros Hm Hk ts vt1 vt2 H.
  destruct (Hm ts vt1 vt2 H) as (r & ts' & H1 & H2).
  unfold bind. rewrite H1, H2.
  destruct r as [a|e| |]; eauto.
  now apply Hk.
Qed.

Create HintDb table.
#[local] Hint Resolve reads_ret reads_throw reads_timeout reads_on_ts reads_get : table.

Ltac reads_step :=
  lazymatch goal with
  | |- reads_table (bind _ _) => apply reads_bind; [|intro]
  | |- reads_table (match kind ?t with _ => _ end) => destruct (kind t)
  | |- reads_table (if ?b then _ else _) => destruct b
  | |- reads_table _ => solve [auto with table]
  end.

Section ReadsLoops.

Variable operand : M State double.
Hypothesis reads_operand : reads_table operand.

Lemma reads_term_loop fuel :
  forall left token, reads_table (term_loop operand fuel left token).
Proof.
  induction fuel as [|fuel IH]; intros left token; simpl.
  - auto with table.
  - repeat reads_step.
Qed.

Lemma reads_expression_loop fuel :
  forall left token, reads_table (expression_loop operand fuel left token).
Proof.
  induction fuel as [|fuel IH]; intros left token; simpl.
  - auto with table.
  - repeat reads_step.
Qed.

End ReadsLoops.

Lemma reads_term_of prim fuel : reads_table prim -> reads_table (term_of prim fuel).
Proof.
  intros Hp. unfold term_of. repeat reads_step. now apply reads_term_loop.
Qed.

Lemma reads_expression_of prim fuel :
  reads_table prim -> reads_table (expression_of prim fuel).
Proof.
  intros Hp. unfold expression_of.
  pose proof (reads_term_of prim fuel Hp).
  repeat reads_step. now apply reads_expression_loop.
Qed.

(** [primary], and with it [term] and [expression], only read the table,
    and only by name. *)
Lemma reads_primary fuel : reads_table (primary fuel).
Proof.
  induction fuel as [|fuel IH]; simpl.
  - auto with table.
  - pose proof (reads_expression_of _ fuel IH). repeat reads_step.
Qed.

Lemma reads_term fuel : reads_table (term fuel).
Proof. apply reads_term_of, reads_primary. Qed.

Lemma reads_expression fuel : reads_table (expression fuel).
Proof. apply reads_expression_of, reads_primary. Qed.

Lemma throw_keeps_bind {A B} (m : M State A) (k : A -> M State B) :
  keeps_vars m -> (forall a, throw_keeps_vars (k a)) -> throw_keeps_vars (bind m k).
Proof.
  intros Hm Hk st e st' H.
  destruct (bind_inv _ _ _ _ _ H) as [(a & s1 & H1 & H2)|[(H1 & _)|[(_ & [=])|(_ & [=])]]].
  - rewrite (Hk _ _ _ _ H2). eauto.
  - eauto.
Qed.

(** [declaration] writes to the table as its last step: a declaration that
    throws has written nothing. *)
Lemma throw_keeps_declaration fuel : throw_keeps_vars (declaration fuel).
Proof.
  unfold declaration.
  apply throw_keeps_bind; [apply reads_keeps; auto with table|intros token].
  destruct (negb _).
  { apply keeps_throw_keeps, reads_keeps. repeat reads_step. }
  apply throw_keeps_bind; [apply reads_keeps; auto with table|intros token'].
  destruct (negb _).
  { apply keeps_throw_keeps, reads_keeps. repeat reads_step. }
  apply throw_keeps_bind; [apply reads_keeps, reads_expression|intros v].
  intros st e st'. unfold bind, on_vars, VarTable.define, ret. simpl. discriminate.
Qed.

Lemma throw_keeps_statement fuel : throw_keeps_vars (statement fuel).
Proof.
  unfold statement.
  apply throw_keeps_bind; [apply reads_keeps; auto with table|intros token].
  pose proof (throw_keeps_declaration fuel).
  pose proof (reads_expression fuel).
  destruct (kind token); try assumption;
    apply keeps_throw_keeps, reads_keeps; repeat reads_step.
Qed.

(** ** The loop of [calculation] *)

Section CalculationLoop.

Variable stmt : M State double.

Lemma calculation_loop_eof fuel result st t st1 :
  on_ts TokenStream.get st = (Ret t, st1) ->
  kind t = INPUT_EOF ->
  calculation_loop stmt (S fuel) result st = (Ret result, st1).
Proof.
  intros Hg Hk. simpl. rewrite (bind_ret _ _ _ _ _ Hg), Hk. reflexivity.
Qed.

Lemma calculation_loop_next fuel result st t st1 st2 v st3 :
  on_ts TokenStream.get st = (Ret t, st1) ->
  kind t <> INPUT_EOF ->
  on_ts (TokenStream.putback t) st1 = (Ret tt, st2) ->
  stmt st2 = (Ret v, st3) ->
  calculation_loop stmt (S fuel) result st = calculation_loop stmt fuel v st3.
Proof.
  intros Hg Hk Hp Hs. simpl. rewrite (bind_ret _ _ _ _ _ Hg).
  apply TokenType_eqb_neq in Hk. rewrite Hk.
  rewrite (bind_ret _ _ _ _ _ Hp), (bind_ret _ _ _ _ _ Hs). reflexivity.
Qed.

Lemma calculation_loop_get_throws fuel result st e st1 :
  on_ts TokenStream.get st = (Throw e, st1) ->
  calculation_loop stmt (S fuel) result st = (Throw e, st1).
Proof. intros Hg. simpl. now rewrite (bind_throw _ _ _ _ _ Hg). Qed.

Lemma calculation_loop_stmt_throws fuel result st t st1 st2 e st3 :
  on_ts TokenStream.get st = (Ret t, st1) ->
  kind t <> INPUT_EOF ->
  on_ts (TokenStream.putback t) st1 = (Ret tt, st2) ->
  stmt st2 = (Throw e, st3) ->
  calculation_loop stmt (S fuel) result st = (Throw e, st3).
Proof.
  intros Hg Hk Hp Hs. simpl. rewrite (bind_ret _ _ _ _ _ Hg).
  apply TokenType_eqb_neq in Hk. rewrite Hk.
  rewrite (bind_ret _ _ _ _ _ Hp), (bind_throw _ _ _ _ _ Hs). reflexivity.
Qed.

(** The loop runs the statements that complete one after the other. *)
Lemma calculation_loop_completes k :
  forall st stk fuel result,
    completes stmt k st stk ->
    exists result', calculation_loop stmt (k + fuel) result st
                    = calculation_loop stmt fuel result' stk.
Proof.
  induction k as [|k IH]; intros st stk fuel result Hc; inversion Hc; subst.
  - now exists result.
  - simpl Nat.add. erewrite calculation_loop_next by eassumption. now apply IH.
Qed.

Lemma calculation_loop_aborts k :
  forall st stk e st' fuel result,
    completes stmt k st stk -> fails stmt stk e st' -> (k < fuel)%nat ->
    calculation_loop stmt fuel result st = (Throw e, st').
Proof.
  induction k as [|k IH]; intros st stk e st' fuel result Hc Hf Hlt;
    (destruct fuel as [|fuel]; [lia|]); inversion Hc; subst.
  - destruct Hf as [Hg|(t & st1 & st2 & Hg & Hk & Hp & Hs)].
    + now apply calculation_loop_get_throws.
    + now apply calculation_loop_stmt_throws with t st1 st2.
  - erewrite calculation_loop_next by eassumption.
    apply IH with stk; [assumption|assumption|lia].
Qed.

End CalculationLoop.

(** C10: when the first token is the end of the input, [calculation]
    returns the initial 0.0 and the table is untouched; so does [evaluate]
    on a line with nothing but white space, the empty line included. *)
Theorem empty_input_is_zero :
  (forall fuel ts vt t ts1,
      TokenStream.get ts = (Ret t, ts1) -> kind t = INPUT_EOF ->
      calculation (S fuel) (ts, vt) = (Ret 0%float, (ts1, vt)))
  /\ (forall input vt,
         IStream.skipws input = ""%string -> evaluate input vt = (Ret 0%float, vt)).
Proof.
  assert (H : forall fuel ts vt t ts1,
      TokenStream.get ts = (Ret t, ts1) -> kind t = INPUT_EOF ->
      calculation (S fuel) (ts, vt) = (Ret 0%float, (ts1, vt))).
  { intros fuel ts vt t ts1 Hg Hk. unfold calculation.
    apply calculation_loop_eof with t; [now apply on_ts_eq|assumption]. }
  split; [exact H|].
  intros input vt Hw. unfold evaluate.
  rewrite (H _ _ vt (Token_of_type INPUT_EOF)
             (TokenStream.new IStream.at_end)); [reflexivity| |reflexivity].
  unfold TokenStream.get, bind, TokenStream.doReadNextToken, IStream.extract_char.
  simpl. rewrite Hw. reflexivity.
Qed.

Lemma empty_input_is_zero_witness :
  IStream.skipws "   " = ""%string
  /\ evaluate "   " VarTable.empty = (Ret 0%float, VarTable.empty).
Proof.
  split; [reflexivity|].
  apply (proj2 empty_input_is_zero "   "%string VarTable.empty). reflexivity.
Defined.

(** ** Errors *)

(** C3: in the loop of [term], whatever the value [left] accumulated so
    far, a [/] or [%] whose right operand evaluates to zero ends in the
    division-by-zero error, in the state the operand left; so does a
    [term] whose first operator is such a division. *)
Theorem division_by_zero_throws
    (n : nat) (left : double) (token : Token) (st : State) (right : double) (st' : State) :
  kind token = DIV \/ kind token = MOD ->
  primary n st = (Ret right, st') ->
  (right =? 0)%float = true ->
  (forall fuel,
      term_loop (primary n) (S fuel) left token st = (Throw DivisionByZeroError, st'))
  /\ (forall st0 st1,
         primary n st0 = (Ret left, st1) ->
         on_ts TokenStream.get st1 = (Ret token, st) ->
         term n st0 = (Throw DivisionByZeroError, st')).
Proof.
  intros Hk Hp Hz.
  assert (Hloop : forall fuel,
    term_loop (primary n) (S fuel) left token st = (Throw DivisionByZeroError, st')).
  { intros fuel. simpl.
    destruct Hk as [-> | ->]; rewrite (bind_ret _ _ _ _ _ Hp), Hz; reflexivity. }
  split; [exact Hloop|].
  intros st0 st1 Hl Hg. unfold term, term_of.
  rewrite (bind_ret _ _ _ _ _ Hl), (bind_ret _ _ _ _ _ Hg).
  destruct n as [|n]; [discriminate Hp|]. apply Hloop.
Qed.

Lemma division_by_zero_throws_witness :
  let st0 := (TokenStream.new (IStream.open "5 % 0"), VarTable.empty) in
  let st := (TokenStream.new (IStream.open " 0"), VarTable.empty) in
  let st' := (TokenStream.new {| pending := ""; eofbit := true; failbit := false |},
              VarTable.empty) in
  primary 1 st = (Ret 0%float, st')
  /\ term 1 st0 = (Throw DivisionByZeroError, st').
Proof.
  intros st0 st st'.
  assert (Hp : primary 1 st = (Ret 0%float, st')) by (vm_compute; reflexivity).
  split; [exact Hp|].
  apply (proj2 (division_by_zero_throws 1 5%float (Token_of_type MOD) st 0%float st'
                  (or_intror eq_refl) Hp eq_refl)
           st0 (TokenStream.new (IStream.open " % 0"), VarTable.empty));
    vm_compute; reflexivity.
Defined.

Example division_by_zero_examples (vt : VarTable) :
  evaluate "1/0" vt = (Throw DivisionByZeroError, vt)
  /\ evaluate "0/0" vt = (Throw DivisionByZeroError, vt)
  /\ evaluate "-7 % 0.0" vt = (Throw DivisionByZeroError, vt)
  /\ evaluate "3/-0" vt = (Throw DivisionByZeroError, vt)
  /\ evaluate "2*3/(1-1)" vt = (Throw DivisionByZeroError, vt)
  /\ evaluate "2*3%(1-1)+4" vt = (Throw DivisionByZeroError, vt).
Proof. repeat split; vm_compute; reflexivity. Qed.

(** A statement that throws ends the calculation there and then, with the
    table the statements before it left. *)
Lemma calculation_throws_in_place fuel k st stk e st' :
  completes (statement fuel) k st stk ->
  fails (statement fuel) stk e st' ->
  (k < fuel)%nat ->
  calculation fuel st = (Throw e, st') /\ snd st' = snd stk.
Proof.
  intros Hc Hf Hlt. split.
  - unfold calculation. now apply calculation_loop_aborts with k stk.
  - destruct Hf as [Hg|(t & st1 & st2 & Hg & _ & Hp & Hs)].
    + now apply on_ts_inv in Hg.
    + apply throw_keeps_statement in Hs.
      apply on_ts_inv in Hg, Hp. destruct Hg as [_ Hg], Hp as [_ Hp]. congruence.
Qed.

(** C7: [primary] on the name of no variable throws the undefined-variable
    error, with the table as it was; an expression never writes to the
    table, however it ends; a calculation whose statements so far left the
    table as it was and whose next statement throws that error ends with
    it and with the table unchanged; and so does [evaluate] on a line that
    begins with such a name. *)
Theorem undefined_variable_throws :
  (forall fuel t ts ts1 vt,
      TokenStream.get ts = (Ret t, ts1) -> kind t = NAME ->
      VarTable.lookup (name t) (variables vt) = None ->
      primary (S fuel) (ts, vt) = (Throw (UndefinedVariableError (name t)), (ts1, vt)))
  /\ (forall fuel st r st', expression fuel st = (r, st') -> snd st' = snd st)
  /\ (forall fuel k st stk n st',
         completes (statement fuel) k st stk -> snd stk = snd st ->
         fails (statement fuel) stk (UndefinedVariableError n) st' ->
         (k < fuel)%nat ->
         calculation fuel st = (Throw (UndefinedVariableError n), st')
         /\ snd st' = snd st)
  /\ (forall input t ts1 vt,
         TokenStream.get (TokenStream.new (IStream.open input)) = (Ret t, ts1) ->
         kind t = NAME ->
         VarTable.lookup (name t) (variables vt) = None ->
         evaluate input vt = (Throw (UndefinedVariableError (name t)), vt)).
Proof.
  assert (Hprim : forall fuel t ts ts1 vt,
      TokenStream.get ts = (Ret t, ts1) -> kind t = NAME ->
      VarTable.lookup (name t) (variables vt) = None ->
      primary (S fuel) (ts, vt) = (Throw (UndefinedVariableError (name t)), (ts1, vt))).
  { intros fuel t ts ts1 vt Hg Hk Hl. simpl.
    rewrite (bind_ret _ _ _ _ _ (on_ts_eq _ _ vt _ _ Hg)), Hk.
    unfold on_vars, VarTable.get. simpl. now rewrite Hl. }
  split; [exact Hprim|]. split.
  { intros fuel. apply reads_keeps, reads_expression. }
  split.
  { intros fuel k st stk n st' Hc Hsame Hf Hlt.
    destruct (calculation_throws_in_place fuel k st stk _ st' Hc Hf Hlt) as [H1 H2].
    split; [exact H1|congruence]. }
  intros input t ts1 vt Hg Hk Hl. unfold evaluate, calculation.
  set (fuel := String.length input).
  pose proof (get_leaves_buffer_empty _ _ _ Hg) as Hb.
  set (full := {| inputStream := inputStream ts1; bufferFull := true; buffer := t |}).
  set (ts2 := {| inputStream := inputStream ts1; bufferFull := false; buffer := t |}).
  assert (Hput : on_ts (TokenStream.putback t) (ts1, vt) = (Ret tt, (full, vt))).
  { apply on_ts_eq. unfold TokenStream.putback. now rewrite Hb. }
  assert (Hput' : on_ts (TokenStream.putback t) (ts2, vt) = (Ret tt, (full, vt))).
  { apply on_ts_eq. reflexivity. }
  assert (Hget' : TokenStream.get full = (Ret t, ts2)) by reflexivity.
  erewrite calculation_loop_stmt_throws with (t := t) (e := UndefinedVariableError (name t))
    (st3 := (ts2, vt)); [reflexivity| |congruence|exact Hput|].
  - now apply on_ts_eq.
  - unfold statement.
    rewrite (bind_ret _ _ _ _ _ (on_ts_eq _ _ vt _ _ Hget')), Hk.
    rewrite (bind_ret _ _ _ _ _ Hput').
    unfold expression, expression_of, term_of.
    now rewrite (bind_throw _ _ _ _ _ (bind_throw _ _ _ _ _ (Hprim fuel _ _ _ _ Hget' Hk Hl))).
Qed.

Lemma undefined_variable_throws_witness :
  evaluate "y + 1" {| variables := [ {| var_name := "x"; var_value := 3%float |} ] |}
  = (Throw (UndefinedVariableError "y"),
     {| variables := [ {| var_name := "x"; var_value := 3%float |} ] |}).
Proof.
  apply (proj2 (proj2 (proj2 undefined_variable_throws)) "y + 1"%string (Token_of_name "y")
           (TokenStream.new {| pending := " + 1"; eofbit := false; failbit := false |}));
    vm_compute; reflexivity.
Defined.

Example undefined_variable_examples :
  let vt := {| variables := [ {| var_name := "x"; var_value := 3%float |} ] |} in
  evaluate "2 * (x + y)" vt = (Throw (UndefinedVariableError "y"), vt)
  /\ evaluate "X" vt = (Throw (UndefinedVariableError "X"), vt)
  /\ evaluate "let z = x / z" vt = (Throw (UndefinedVariableError "z"), vt).
Proof. repeat split; vm_compute; reflexivity. Qed.

(** C6: when [k] statements of a calculation have returned and the next
    one throws, in the scanner or in [statement], the calculation ends at
    once with that exception, in the state the failing statement left, and
    the table is the one the [k] statements left behind. *)
Theorem calculation_aborts_without_rollback
    (fuel k : nat) (st stk : State) (e : exception) (st' : State) :
  completes (statement fuel) k st stk ->
  fails (statement fuel) stk e st' ->
  (k < fuel)%nat ->
  calculation fuel st = (Throw e, st') /\ snd st' = snd stk.
Proof. apply calculation_throws_in_place. Qed.

Lemma calculation_aborts_without_rollback_witness :
  let st := (TokenStream.new (IStream.open "let x = 2 let y = x / 0 let z = 1"),
             VarTable.empty) in
  let st' := snd (calculation 5 st) in
  calculation 5 st = (Throw DivisionByZeroError, st')
  /\ snd st' = {| variables := [ {| var_name := "x"; var_value := 2%float |} ] |}.
Proof.
  intros st st'.
  pose (t := Token_of_type KW_LET).
  pose (st2 := snd (on_ts (TokenStream.putback t) (snd (on_ts TokenStream.get st)))).
  pose (stk := snd (statement 5 st2)).
  assert (Hc : completes (statement 5) 1 st stk).
  { apply completes_next with t (snd (on_ts TokenStream.get st)) st2 2%float stk;
      [vm_compute; reflexivity | discriminate | vm_compute; reflexivity
      | vm_compute; reflexivity | apply completes_none]. }
  assert (Hf : fails (statement 5) stk DivisionByZeroError st').
  { right. exists t, (snd (on_ts TokenStream.get stk)),
      (snd (on_ts (TokenStream.putback t) (snd (on_ts TokenStream.get stk)))).
    split; [vm_compute; reflexivity|].
    split; [discriminate|].
    split; vm_compute; reflexivity. }
  assert (Hlt : (1 < 5)%nat) by (repeat constructor).
  destruct (calculation_aborts_without_rollback 5 1 st stk DivisionByZeroError st' Hc Hf Hlt)
    as [H1 H2].
  split; [exact H1|]. rewrite H2. vm_compute. reflexivity.
Defined.

(** ** Statements in a row *)

Lemma lookup_assign_other m v vars :
  forall i var, nth_error vars i = Some var -> var_name var <> m ->
    VarTable.lookup m (VarTable.assign i v vars) = VarTable.lookup m vars.
Proof.
  induction vars as [|w rest IH]; intros [|i] var Hi Hne; simpl in *; try discriminate.
  - injection Hi as ->.
    destruct (String.eqb_spec m (var_name var)); [congruence|reflexivity].
  - destruct (String.eqb m (var_name w)); [reflexivity|]. eauto.
Qed.

Lemma lookup_defined_other n m v vars :
  n <> m -> VarTable.lookup m (VarTable.defined n v vars) = VarTable.lookup m vars.
Proof.
  intros Hne. unfold VarTable.defined.
  destruct (VarTable.getVariable n vars) as [i|] eqn:E.
  - destruct (getVariable_some_name _ _ _ E) as (var & Hi & Hn).
    apply lookup_assign_other with var; congruence.
  - clear E. induction vars as [|w rest IH]; simpl.
    + destruct (String.eqb_spec m n); [congruence|reflexivity].
    + now rewrite IH.
Qed.

(** For lookups, the table after [define(n, v)] is the old one with [n],
    bound to [v], in front. *)
Lemma agree_defined n v vars :
  agree {| variables := {| var_name := n; var_value := v |} :: vars |}
        {| variables := VarTable.defined n v vars |}.
Proof.
  intros m. simpl. destruct (String.eqb_spec m n) as [->|Hne].
  - now rewrite lookup_defined.
  - rewrite lookup_defined_other; congruence.
Qed.

Lemma expression_agree fuel ts vt1 vt2 r ts' :
  agree vt1 vt2 ->
  expression fuel (ts, vt1) = (r, (ts', vt1)) ->
  expression fuel (ts, vt2) = (r, (ts', vt2)).
Proof.
  intros Ha H.
  destruct (reads_expression fuel ts vt1 vt2 Ha) as (r0 & ts0 & H1 & H2).
  congruence.
Qed.

(** A statement that does not begin with [let] is an expression. *)
Lemma statement_expression fuel st t st1 st2 :
  on_ts TokenStream.get st = (Ret t, st1) ->
  kind t <> KW_LET ->
  on_ts (TokenStream.putback t) st1 = (Ret tt, st2) ->
  statement fuel st = expression fuel st2.
Proof.
  intros Hg Hk Hp. unfold statement. rewrite (bind_ret _ _ _ _ _ Hg).
  destruct (kind t); try contradiction; now rewrite (bind_ret _ _ _ _ _ Hp).
Qed.

Lemma evaluate_let_x_then_use (vt : VarTable) :
  let vt' := snd (VarTable.define "x" 2%float vt) in
  evaluate "let x = 2 (x + 2) * 3" vt = (Ret 12%float, vt')
  /\ VarTable.get "x" vt' = (Ret 2%float, vt').
Proof.
  intros vt'. split.
  2:{ unfold VarTable.get. subst vt'. simpl. now rewrite lookup_defined. }
  unfold evaluate, calculation.
  set (ts0 := TokenStream.new (IStream.open "let x = 2 (x + 2) * 3")).
  change (String.length "let x = 2 (x + 2) * 3") with 21%nat.
  (* the declaration *)
  set (t1 := Token_of_type KW_LET).
  set (ts1 := fst (snd (statement 22 (TokenStream.new (IStream.open "let x = 2 (x + 2) * 3"),
                          VarTable.empty)))).
  rewrite (calculation_loop_next _ _ _ _ t1 (snd (on_ts TokenStream.get (ts0, vt)))
             (snd (on_ts (TokenStream.putback t1) (snd (on_ts TokenStream.get (ts0, vt)))))
             2%float (ts1, vt'));
    [ | vm_compute; reflexivity | discriminate | vm_compute; reflexivity
      | lazy -[VarTable.defined]; reflexivity ].
  (* the expression, on a table that agrees with [vt'] and begins with [x] *)
  set (t2 := Token_of_type LPAREN).
  set (front := {| variables := {| var_name := "x"; var_value := 2%float |} :: variables vt |}).
  set (ts2 := snd (TokenStream.putback t2 (snd (TokenStream.get ts1)))).
  set (ts3 := fst (snd (expression 22
                          (ts2, {| variables := [{| var_name := "x"; var_value := 2%float |}] |})))).
  assert (H2 : statement 22 (ts1, vt') = (Ret 12%float, (ts3, vt'))).
  { rewrite (statement_expression _ _ t2 (snd (TokenStream.get ts1), vt') (ts2, vt'));
      [ | vm_compute; reflexivity | discriminate | vm_compute; reflexivity ].
    apply expression_agree with front; [apply agree_defined|].
    vm_compute. reflexivity. }
  rewrite (calculation_loop_next _ _ _ _ t2 (snd (TokenStream.get ts1), vt') (ts2, vt')
             12%float (ts3, vt'));
    [ | vm_compute; reflexivity | discriminate | vm_compute; reflexivity | exact H2 ].
  (* the end of the line *)
  rewrite (calculation_loop_eof _ _ _ _ (Token_of_type INPUT_EOF)
             (snd (TokenStream.get ts3), vt'));
    [reflexivity | vm_compute; reflexivity | reflexivity].
Qed.

(** C2: when statements of a line have completed, one more returns [v] and
    the end of the input follows, [calculation] returns [v], the value of
    that last statement alone, in the state the statements left one after
    the other; in particular [let x = 2 (x + 2) * 3] evaluates to 12 on
    any table, and the table afterwards is the one [define] made, which
    maps [x] to 2. *)
Theorem last_statement_value :
  (forall fuel k st stk t st1 st2 v st3 t' st',
      completes (statement fuel) k st stk ->
      on_ts TokenStream.get stk = (Ret t, st1) ->
      kind t <> INPUT_EOF ->
      on_ts (TokenStream.putback t) st1 = (Ret tt, st2) ->
      statement fuel st2 = (Ret v, st3) ->
      on_ts TokenStream.get st3 = (Ret t', st') ->
      kind t' = INPUT_EOF ->
      (S k < fuel)%nat ->
      calculation fuel st = (Ret v, st') /\ snd st' = snd st3)
  /\ (forall vt,
         let vt' := snd (VarTable.define "x" 2%float vt) in
         evaluate "let x = 2 (x + 2) * 3" vt = (Ret 12%float, vt')
         /\ VarTable.get "x" vt' = (Ret 2%float, vt')).
Proof.
  split; [|exact evaluate_let_x_then_use].
  intros fuel k st stk t st1 st2 v st3 t' st' Hc Hg Hk Hp Hs Hg' Hk' Hlt.
  split; [|now apply on_ts_inv in Hg'].
  unfold calculation.
  replace fuel with (k + S (S (fuel - S (S k))))%nat at 2 by lia.
  destruct (calculation_loop_completes _ k st stk (S (S (fuel - S (S k)))) 0%float Hc)
    as [r ->].
  erewrite calculation_loop_next by eassumption.
  now apply calculation_loop_eof with t'.
Qed.

Lemma last_statement_value_witness :
  let st := (TokenStream.new (IStream.open "1 let y = 2 y*5"), VarTable.empty) in
  calculation 4 st
  = (Ret 10%float,
     ({| inputStream := {| pending := ""; eofbit := true; failbit := true |};
         bufferFull := false; buffer := Token_of_type INPUT_EOF |},
      {| variables := [ {| var_name := "y"; var_value := 2%float |} ] |})).
Proof.
  intros st.
  pose (s1 := snd (statement 4 (snd (on_ts (TokenStream.putback (Token_of_double 1%float))
                                       (snd (on_ts TokenStream.get st)))))).
  pose (s2 := snd (statement 4 (snd (on_ts (TokenStream.putback (Token_of_type KW_LET))
                                       (snd (on_ts TokenStream.get s1)))))).
  assert (Hc : completes (statement 4) 2 st s2).
  { apply completes_next with (Token_of_double 1%float) (snd (on_ts TokenStream.get st))
      (snd (on_ts (TokenStream.putback (Token_of_double 1%float))
              (snd (on_ts TokenStream.get st)))) 1%float s1;
      [vm_compute; reflexivity | discriminate | vm_compute; reflexivity
      | vm_compute; reflexivity | ].
    apply completes_next with (Token_of_type KW_LET) (snd (on_ts TokenStream.get s1))
      (snd (on_ts (TokenStream.putback (Token_of_type KW_LET))
              (snd (on_ts TokenStream.get s1)))) 2%float s2;
      [vm_compute; reflexivity | discriminate | vm_compute; reflexivity
      | vm_compute; reflexivity | apply completes_none]. }
  refine (proj1 (proj1 last_statement_value 4 2 st s2 (Token_of_name "y")
                   (snd (on_ts TokenStream.get s2))
                   (snd (on_ts (TokenStream.putback (Token_of_name "y"))
                           (snd (on_ts TokenStream.get s2))))
                   10%float
                   (snd (statement 4 (snd (on_ts (TokenStream.putback (Token_of_name "y"))
                                             (snd (on_ts TokenStream.get s2))))))
                   (Token_of_type INPUT_EOF) _ Hc _ _ _ _ _ _ _));
    try (vm_compute; reflexivity); try discriminate.
Defined.


(** ** Termination: the fuel of [evaluate] is never used up *)

Lemma skipws_length s : (String.length (IStream.skipws s) <= String.length s)%nat.
Proof.
  induction s as [|c r IH]; simpl; [lia|].
  destruct (isspace c); simpl; lia.
Qed.

Lemma digits_length s :
  forall acc len, (String.length (snd (IStream.digits s acc len)) <= String.length s)%nat.
Proof.
  induction s as [|c r IH]; intros acc len; simpl; [lia|].
  destruct (isdigit c); [|simpl; lia].
  etransitivity; [apply IH|lia].
Qed.

Lemma sign_length s : (String.length (snd (IStream.sign s)) <= String.length s)%nat.
Proof.
  destruct s as [|c r]; simpl; [lia|].
  destruct (Ascii.eqb c "-"); [simpl; lia|].
  destruct (Ascii.eqb c "+"); simpl; lia.
Qed.

Lemma fraction_length s ip :
  (String.length (snd (IStream.fraction s ip)) <= String.length s)%nat.
Proof.
  destruct s as [|c r]; simpl; [lia|].
  destruct (Ascii.eqb c "."); simpl; [|lia].
  pose proof (digits_length r ip 0). lia.
Qed.

Lemma exponent_length s :
  (String.length (snd (IStream.exponent s)) <= String.length s)%nat.
Proof.
  destruct s as [|c r]; simpl; [lia|].
  destruct (Ascii.eqb c "e" || Ascii.eqb c "E"); simpl; [|lia].
  pose proof (sign_length r).
  destruct (IStream.sign r) as [eneg r0]. simpl in *.
  pose proof (digits_length r0 0%Z 0).
  destruct (IStream.digits r0 0%Z 0) as [[e elen] r1]. simpl in *. lia.
Qed.

(** A number that begins with a digit or a point takes that character. *)
Lemma scan_double_length c r :
  isdigit c || Ascii.eqb c "." = true ->
  (String.length (snd (IStream.scan_double (String c r))) <= String.length r)%nat.
Proof.
  intros Hc. unfold IStream.scan_double.
  assert (Hs : IStream.sign (String c r) = (false, String c r)).
  { simpl. destruct (Ascii.eqb_spec c "-") as [->|_]; [discriminate Hc|].
    destruct (Ascii.eqb_spec c "+") as [->|_]; [discriminate Hc|]. reflexivity. }
  rewrite Hs.
  assert (Hf : forall ip ilen s1, IStream.digits (String c r) 0%Z 0 = (ip, ilen, s1) ->
             (String.length (snd (IStream.fraction s1 ip)) <= String.length r)%nat).
  { intros ip ilen s1. simpl. destruct (isdigit c) eqn:Hd.
    - intros H. pose proof (digits_length r (digit_value c) 1) as Hl.
      rewrite H in Hl. simpl in Hl. pose proof (fraction_length s1 ip). lia.
    - intros [= <- <- <-]. simpl in Hc. unfold IStream.fraction. rewrite Hc.
      apply digits_length. }
  destruct (IStream.digits (String c r) 0%Z 0) as [[ip ilen] s1].
  specialize (Hf ip ilen s1 eq_refl).
  destruct (IStream.fraction s1 ip) as [[m flen] s2]. simpl in Hf.
  assert (He : (String.length
                  (snd (if negb (ilen + flen =? 0)%nat then IStream.exponent s2 else (None, s2)))
                <= String.length r)%nat).
  { destruct (negb _); simpl; [|lia]. pose proof (exponent_length s2). lia. }
  destruct (if negb (ilen + flen =? 0)%nat then IStream.exponent s2 else (None, s2))
    as [ex s3].
  simpl in He.
  destruct (negb _); [|exact He].
  destruct ex as [[e elen]|]; [destruct (elen =? 0)%nat|]; exact He.
Qed.

Lemma extract_char_length s och s' :
  IStream.extract_char s = (och, s') ->
  (String.length (pending s') + match och with Some _ => 1 | None => 0 end
   <= String.length (pending s))%nat.
Proof.
  unfold IStream.extract_char. destruct (IStream.good s).
  - pose proof (skipws_length (pending s)).
    destruct (IStream.skipws (pending s)); intros [= <- <-]; simpl in *; lia.
  - intros [= <- <-]. simpl. lia.
Qed.

Lemma extract_double_length c s v s' :
  isdigit c || Ascii.eqb c "." = true ->
  IStream.extract_double (IStream.putback c s) = (v, s') ->
  (String.length (pending s') <= String.length (pending s))%nat.
Proof.
  intros Hc. unfold IStream.extract_double, IStream.putback, IStream.good.
  destruct (failbit s); simpl.
  - intros [= _ <-]. simpl. lia.
  - assert (Hsp : isspace c = false).
    { destruct (isdigit c) eqn:Hd.
      - destruct c as [[|] [|] [|] [|] [|] [|] [|] [|]]; try discriminate Hd; reflexivity.
      - simpl in Hc. apply Ascii.eqb_eq in Hc. now subst c. }
    rewrite Hsp.
    pose proof (scan_double_length c (pending s) Hc) as Hl.
    destruct (IStream.scan_double (String c (pending s))) as [x rest]. simpl in Hl.
    destruct x as [[| | |]|]; intros [= _ <-]; simpl; lia.
Qed.

Lemma read_name_length text :
  forall n, (String.length (pending (snd (TokenStream.read_name text n)))
             <= String.length text)%nat.
Proof.
  induction text as [|c r IH]; intros n; simpl; [lia|].
  destruct (isalpha c || isdigit c); [|simpl; lia].
  etransitivity; [apply IH|lia].
Qed.

Lemma readVariableOrKeyword_length ch s :
  (String.length (pending (snd (TokenStream.readVariableOrKeyword ch s)))
   <= String.length (pending s))%nat.
Proof.
  unfold TokenStream.readVariableOrKeyword. destruct (IStream.good s).
  - pose proof (read_name_length (pending s) (String ch "")).
    destruct (TokenStream.read_name (pending s) (String ch "")) as [n s']. simpl in *.
    destruct (String.eqb n "let"); simpl; lia.
  - destruct (String.eqb (String ch "") "let"); simpl; lia.
Qed.

Lemma scan_length ch s r s' :
  TokenStream.scan ch s = (r, s') ->
  (String.length (pending s') <= String.length (pending s))%nat /\ r <> Timeout.
Proof.
  unfold TokenStream.scan.
  repeat match goal with
         | |- context [if Ascii.eqb ch ?c then (Ret ?t, s) else _] =>
             destruct (Ascii.eqb ch c); [intros [= <- <-]; split; [lia|discriminate]|]
         end.
  destruct (isdigit ch || Ascii.eqb ch ".") eqn:Hd.
  - pose proof (extract_double_length ch s) as Hl.
    destruct (IStream.extract_double (IStream.putback ch s)) as [[val|] s0];
      intros [= <- <-]; (split; [eapply Hl; eauto|discriminate]).
  - destruct (isalpha ch).
    + pose proof (readVariableOrKeyword_length ch s).
      destruct (TokenStream.readVariableOrKeyword ch s) as [t s0].
      intros [= <- <-]. split; [assumption|discriminate].
    + intros [= <- <-]. split; [lia|discriminate].
Qed.

(** A token taken by [get] is taken off the input still to be read, and
    only the end of input is returned without anything being read. *)
Lemma get_remaining ts r ts' :
  TokenStream.get ts = (r, ts') ->
  match r with
  | Ret t => (remaining ts' + weight t <= remaining ts)%nat
  | Timeout => False
  | _ => True
  end.
Proof.
  unfold TokenStream.get, remaining.
  destruct (bufferFull ts) eqn:Hb.
  { intros [= <- <-]. simpl. lia. }
  unfold bind, TokenStream.doReadNextToken.
  pose proof (extract_char_length (inputStream ts)) as Hc.
  destruct (IStream.extract_char (inputStream ts)) as [och s].
  specialize (Hc och s eq_refl).
  destruct (IStream.eof s).
  { simpl. intros [= <- <-]. simpl. rewrite Hb.
    change (weight (Token_of_type INPUT_EOF)) with 0. destruct och; lia. }
  destruct och as [ch|]; [|now intros [= <- _]].
  pose proof (scan_length ch s) as Hs.
  destruct (TokenStream.scan ch s) as [[t| | |] s0];
    destruct (Hs _ _ eq_refl) as [Hl Hn]; simpl.
  - destruct (TokenType_eqb (kind t) UNKNOWN); intros [= <- <-]; [exact I|].
    simpl. rewrite Hb. unfold weight. destruct (TokenType_eqb (kind t) INPUT_EOF); lia.
  - now intros [= <- _].
  - now intros [= <- _].
  - contradiction.
Qed.

Section Total.

Context {A : Type}.
Variables (P : State -> Prop) (Q : A -> State -> Prop).

Lemma total_ret a : (forall st, P st -> Q a st) -> total P (ret a) Q.
Proof. intros H st Hp. simpl. auto. Qed.

Lemma total_throw e : total P (throw e) Q.
Proof. intros st _. exact I. Qed.

Lemma total_bind {B} (m : M State B) (k : B -> M State A) (R : B -> State -> Prop) :
  total P m R -> (forall b, total (R b) (k b) Q) -> total P (bind m k) Q.
Proof.
  intros Hm Hk st Hp. specialize (Hm st Hp). unfold bind.
  destruct (m st) as [[b|e| |] s1]; try easy. now apply Hk.
Qed.

Lemma total_weaken (P' : State -> Prop) (m : M State A) :
  (forall st, P st -> P' st) -> total P' m Q -> total P m Q.
Proof. intros H Hm st Hp. apply Hm. auto. Qed.

Lemma total_post (Q' : A -> State -> Prop) (m : M State A) :
  (forall a st, Q' a st -> Q a st) -> total P m Q' -> total P m Q.
Proof.
  intros H Hm st Hp. specialize (Hm st Hp).
  destruct (m st) as [[a|e| |] s1]; auto.
Qed.

Lemma total_assume (F : Prop) (m : M State A) :
  (forall st, P st -> F) -> (F -> total P m Q) -> total P m Q.
Proof. intros H Hm st Hp. apply Hm; eauto. Qed.

End Total.

Lemma total_get (P : State -> Prop) x :
  (forall st, P st -> (mu st <= x)%nat) ->
  total P (on_ts TokenStream.get) (fun t st' => (mu st' + weight t <= x)%nat).
Proof.
  intros H st Hp. specialize (H st Hp). unfold on_ts, mu in *.
  pose proof (get_remaining (fst st)) as Hg.
  destruct (TokenStream.get (fst st)) as [r ts']. specialize (Hg r ts' eq_refl).
  destruct r; simpl; auto. lia.
Qed.

Lemma total_putback (P : State -> Prop) t x :
  (forall st, P st -> (mu st + weight t <= x)%nat) ->
  total P (on_ts (TokenStream.putback t)) (fun _ st' => (mu st' <= x)%nat).
Proof.
  intros H st Hp. specialize (H st Hp). unfold on_ts, mu, remaining, TokenStream.putback in *.
  destruct (bufferFull (fst st)); simpl; [exact I|]. lia.
Qed.

Lemma total_vars_get (P : State -> Prop) n x :
  (forall st, P st -> (S (mu st) <= x)%nat) ->
  total P (on_vars (VarTable.get n)) (fun _ st' => (S (mu st') <= x)%nat).
Proof.
  intros H st Hp. specialize (H st Hp). unfold on_vars, VarTable.get. simpl.
  destruct (VarTable.lookup n (variables (snd st))); simpl; auto.
Qed.

Lemma total_define (P : State -> Prop) n v x :
  (forall st, P st -> (S (mu st) <= x)%nat) ->
  total P (on_vars (VarTable.define n v)) (fun _ st' => (S (mu st') <= x)%nat).
Proof. intros H st Hp. specialize (H st Hp). exact H. Qed.

Lemma total_consumes {A} (P : State -> Prop) N (m : M State A) x :
  consumes N m -> (x < N)%nat -> (forall st, P st -> (mu st <= x)%nat) ->
  total P m (fun _ st' => (S (mu st') <= x)%nat).
Proof. intros Hm Hx H. eapply total_weaken; [exact H|]. now apply Hm. Qed.

Lemma weight_not_eof t : kind t <> INPUT_EOF -> weight t = 1%nat.
Proof. intros H. unfold weight. apply TokenType_eqb_neq in H. now rewrite H. Qed.

Ltac bound := intros; cbv beta in *; lia.

Section TotalLoops.

Variables (operand : M State double) (N : nat).
Hypothesis consumes_operand : consumes N operand.

Lemma term_loop_total fuel :
  forall y left token, (y <= N)%nat -> (y < fuel)%nat ->
    total (fun st => (mu st + weight token <= y)%nat)
          (term_loop operand fuel left token)
          (fun _ st' => (mu st' <= y)%nat).
Proof.
  induction fuel as [|fuel IH]; intros y left token HyN Hy; [lia|].
  assert (Hop : (weight token = 1)%nat ->
     total (fun st => (mu st + weight token <= y)%nat) operand
           (fun _ st' => (S (mu st') <= y - 1)%nat)).
  { intros Hw. apply total_assume with (1 <= y)%nat; [bound|intros Hy1].
    apply total_consumes with N; [assumption|lia|bound]. }
  assert (Hrest : forall left',
     total (fun st' => (S (mu st') <= y - 1)%nat)
           (bind (on_ts TokenStream.get) (fun token' => term_loop operand fuel left' token'))
           (fun _ st' => (mu st' <= y)%nat)).
  { intros left'.
    apply total_assume with (2 <= y)%nat; [bound|intros Hy2].
    eapply total_bind; [apply total_get with (x := (y - 2)%nat); bound|].
    intros token'. simpl.
    apply total_post with (fun _ st' => (mu st' <= y - 2)%nat); [bound|].
    apply IH; lia. }
  simpl.
  destruct (kind token) eqn:Hk;
    try (eapply total_bind;
         [apply total_putback with (x := y); bound
         |intro; apply total_ret; bound]);
    (assert (Hw : weight token = 1%nat) by (apply weight_not_eof; congruence));
    (eapply total_bind; [exact (Hop Hw)|intros right]); simpl.
  - apply Hrest.
  - destruct (right =? 0)%float; [apply total_throw|apply Hrest].
  - destruct (right =? 0)%float; [apply total_throw|apply Hrest].
Qed.

Lemma expression_loop_total fuel :
  forall y left token, (y <= N)%nat -> (y < fuel)%nat ->
    total (fun st => (mu st + weight token <= y)%nat)
          (expression_loop operand fuel left token)
          (fun _ st' => (mu st' <= y)%nat).
Proof.
  induction fuel as [|fuel IH]; intros y left token HyN Hy; [lia|].
  assert (Hop : (weight token = 1)%nat ->
     total (fun st => (mu st + weight token <= y)%nat) operand
           (fun _ st' => (S (mu st') <= y - 1)%nat)).
  { intros Hw. apply total_assume with (1 <= y)%nat; [bound|intros Hy1].
    apply total_consumes with N; [assumption|lia|bound]. }
  assert (Hrest : forall left',
     total (fun st' => (S (mu st') <= y - 1)%nat)
           (bind (on_ts TokenStream.get) (fun token' => expression_loop operand fuel left' token'))
           (fun _ st' => (mu st' <= y)%nat)).
  { intros left'.
    apply total_assume with (2 <= y)%nat; [bound|intros Hy2].
    eapply total_bind; [apply total_get with (x := (y - 2)%nat); bound|].
    intros token'. simpl.
    apply total_post with (fun _ st' => (mu st' <= y - 2)%nat); [bound|].
    apply IH; lia. }
  simpl.
  destruct (kind token) eqn:Hk;
    try (eapply total_bind;
         [apply total_putback with (x := y); bound
         |intro; apply total_ret; bound]);
    (assert (Hw : weight token = 1%nat) by (apply weight_not_eof; congruence));
    (eapply total_bind; [exact (Hop Hw)|intros right]); simpl; apply Hrest.
Qed.

End TotalLoops.

Lemma consumes_term_of prim N fuel :
  consumes N prim -> consumes (Nat.min N fuel) (term_of prim fuel).
Proof.
  intros Hp x Hx. unfold term_of.
  eapply total_bind; [apply total_consumes with (N := N) (x := x); [exact Hp|lia|bound]|intros left].
  apply total_assume with (1 <= x)%nat; [bound|intros Hx1].
  eapply total_bind; [apply total_get with (x := (x - 1)%nat); bound|intros token].
  apply total_post with (fun _ st' => (mu st' <= x - 1)%nat); [bound|].
  apply term_loop_total with N; [exact Hp|lia|lia].
Qed.

Lemma consumes_expression_of prim N fuel :
  consumes N prim -> consumes (Nat.min N fuel) (expression_of prim fuel).
Proof.
  intros Hp x Hx. unfold expression_of.
  pose proof (consumes_term_of prim N fuel Hp) as Ht.
  eapply total_bind;
    [apply total_consumes with (N := Nat.min N fuel) (x := x); [exact Ht|lia|bound]
    |intros left].
  apply total_assume with (1 <= x)%nat; [bound|intros Hx1].
  eapply total_bind; [apply total_get with (x := (x - 1)%nat); bound|intros token].
  apply total_post with (fun _ st' => (mu st' <= x - 1)%nat); [bound|].
  apply expression_loop_total with (Nat.min N fuel); [exact Ht|lia|lia].
Qed.

Lemma consumes_primary n : consumes n (primary n).
Proof.
  induction n as [|n IH]; intros x Hx; [lia|]. simpl.
  eapply total_bind; [apply total_get with (x := x); bound|intros token].
  pose proof (consumes_expression_of _ _ n IH) as He. rewrite Nat.min_id in He.
  destruct (kind token) eqn:Hk;
    try (eapply total_bind;
         [apply total_putback with (x := x); bound|intro; apply total_throw]);
    (assert (Hw : weight token = 1%nat) by (apply weight_not_eof; congruence));
    rewrite Hw;
    (apply total_assume with (1 <= x)%nat; [bound|intros Hx1]).
  - (* + *)
    apply total_post with (fun _ st' => (S (mu st') <= x - 1)%nat); [bound|].
    apply total_consumes with (N := n) (x := (x - 1)%nat); [exact IH|lia|bound].
  - (* - *)
    eapply total_bind;
      [apply total_consumes with (N := n) (x := (x - 1)%nat); [exact IH|lia|bound]|intros v].
    apply total_ret. bound.
  - (* ( *)
    eapply total_bind;
      [apply total_consumes with (N := n) (x := (x - 1)%nat); [exact He|lia|bound]|intros v].
    eapply total_bind; [apply total_get with (x := (x - 2)%nat); bound|intros token'].
    destruct (negb _); [apply total_throw|apply total_ret; bound].
  - (* a number *)
    apply total_ret. bound.
  - (* a name *)
    apply total_vars_get. bound.
Qed.

Lemma consumes_expression n : consumes n (expression n).
Proof.
  pose proof (consumes_expression_of _ _ n (consumes_primary n)) as H.
  now rewrite Nat.min_id in H.
Qed.

Lemma consumes_declaration n : consumes n (declaration n).
Proof.
  intros x Hx. unfold declaration.
  eapply total_bind; [apply total_get with (x := x); bound|intros token].
  destruct (negb _).
  { eapply total_bind; [apply total_putback with (x := x); bound|intro; apply total_throw]. }
  eapply total_bind; [apply total_get with (x := x); bound|intros token'].
  destruct (negb _).
  { eapply total_bind; [apply total_putback with (x := x); bound|intro; apply total_throw]. }
  eapply total_bind;
    [apply total_consumes with (N := n) (x := x); [apply consumes_expression|lia|bound]
    |intros v].
  eapply total_bind; [apply total_define with (x := x); bound|intro].
  apply total_ret. bound.
Qed.

Lemma consumes_statement n : consumes n (statement n).
Proof.
  intros x Hx. unfold statement.
  eapply total_bind; [apply total_get with (x := x); bound|intros token].
  pose proof (consumes_declaration n x Hx) as Hd.
  pose proof (consumes_expression n) as He.
  destruct (kind token);
    try (eapply total_weaken; [|exact Hd]; bound);
    (eapply total_bind; [apply total_putback with (x := x); bound|intro]);
    (apply total_consumes with (N := n) (x := x); [exact He|lia|bound]).
Qed.

Lemma calculation_loop_total stmt N :
  consumes N stmt ->
  forall fuel x result, (x < N)%nat -> (x < fuel)%nat ->
    total (fun st => (mu st <= x)%nat) (calculation_loop stmt fuel result) (fun _ _ => True).
Proof.
  intros Hs. induction fuel as [|fuel IH]; intros x result HxN Hx; [lia|]. simpl.
  eapply total_bind; [apply total_get with (x := x); bound|intros token].
  destruct (TokenType_eqb (kind token) INPUT_EOF) eqn:Hk.
  { apply total_ret. auto. }
  assert (Hw : weight token = 1%nat) by (unfold weight; now rewrite Hk).
  eapply total_bind; [apply total_putback with (x := x); bound|intro].
  eapply total_bind; [apply total_consumes with (N := N) (x := x); [exact Hs|lia|bound]|intros v].
  apply total_assume with (1 <= x)%nat; [bound|intros Hx1].
  eapply total_weaken; [|apply (IH (x - 1)%nat); lia]. bound.
Qed.

(** [calculation] with more fuel than there is input to read does not run
    out of it. *)
Lemma calculation_total n st :
  (mu st < n)%nat -> fst (calculation n st) <> Timeout.
Proof.
  intros H. unfold calculation.
  pose proof (calculation_loop_total _ n (consumes_statement n) n (mu st) 0%float H H st
                (Nat.le_refl _)) as Ht.
  destruct (calculation_loop (statement n) n 0%float st) as [[v|e| |] st']; simpl;
    [discriminate|discriminate|discriminate|contradiction].
Qed.

(** The model of [evaluate] gives the outcome of the program on every line:
    its fuel never runs out. *)
Theorem evaluate_terminates input vt : fst (evaluate input vt) <> Timeout.
Proof.
  unfold evaluate.
  pose proof (calculation_total (S (String.length input))
                (TokenStream.new (IStream.open input), vt)) as H.
  destruct (calculation _ _) as [r st]. simpl in *. apply H.
  unfold mu, remaining. simpl. lia.
Qed.

(** ** [ignore] *)

Lemma scan_not_eof ch s t s' :
  TokenStream.scan ch s = (Ret t, s') -> kind t <> INPUT_EOF.
Proof.
  unfold TokenStream.scan.
  repeat match goal with
         | |- context [if Ascii.eqb ch ?c then (Ret ?t, s) else _] =>
             destruct (Ascii.eqb ch c); [intros [= <- _]; discriminate|]
         end.
  destruct (isdigit ch || Ascii.eqb ch ".").
  - destruct (IStream.extract_double (IStream.putback ch s)) as [[val|] s0];
      intros [= <- _]; discriminate.
  - destruct (isalpha ch); [|intros [= <- _]; discriminate].
    unfold TokenStream.readVariableOrKeyword.
    destruct (if IStream.good s then _ else _) as [n s0].
    destruct (String.eqb n "let"); intros [= <- _]; discriminate.
Qed.

Lemma doReadNextToken_eof ts t ts' :
  TokenStream.doReadNextToken ts = (Ret t, ts') -> kind t = INPUT_EOF ->
  IStream.eof (inputStream ts') = true /\ bufferFull ts' = bufferFull ts.
Proof.
  unfold TokenStream.doReadNextToken.
  destruct (IStream.extract_char (inputStream ts)) as [och s].
  destruct (IStream.eof s) eqn:He.
  - intros [= _ <-] _. simpl. auto.
  - destruct och as [ch|]; [|discriminate].
    pose proof (scan_not_eof ch s) as Hs.
    destruct (TokenStream.scan ch s) as [r s0]. intros [= -> <-] Hk.
    now destruct (Hs _ _ eq_refl).
Qed.


(** ** More fuel changes nothing *)

Lemma extends_refl {A} (m : M State A) : extends m m.
Proof. now intros st r st' H _. Qed.

Lemma extends_timeout {A} (m' : M State A) : extends timeout m'.
Proof. intros st r st' [= <- _] H. now contradict H. Qed.

Lemma extends_bind {A B} (m m' : M State A) (k k' : A -> M State B) :
  extends m m' -> (forall a, extends (k a) (k' a)) -> extends (bind m k) (bind m' k').
Proof.
  intros Hm Hk st r st' H Hr. unfold bind in *.
  destruct (m st) as [[a|e| |] s1] eqn:E.
  - rewrite (Hm _ _ _ E) by discriminate. now apply Hk.
  - rewrite (Hm _ _ _ E) by discriminate. exact H.
  - rewrite (Hm _ _ _ E) by discriminate. exact H.
  - injection H as <- _. now contradict Hr.
Qed.

Ltac extends_step :=
  lazymatch goal with
  | |- extends (bind _ _) (bind _ _) => apply extends_bind; [|intro]
  | |- extends (match kind ?t with _ => _ end) _ => destruct (kind t)
  | |- extends (if ?b then _ else _) _ => destruct b
  | |- extends timeout _ => apply extends_timeout
  | |- extends ?m ?m => apply extends_refl
  | |- extends _ _ => solve [auto]
  end.

Section ExtendsLoops.

Variables operand operand' : M State double.
Hypothesis extends_operand : extends operand operand'.

Lemma extends_term_loop fuel :
  forall fuel' left token, (fuel <= fuel')%nat ->
    extends (term_loop operand fuel left token) (term_loop operand' fuel' left token).
Proof.
  induction fuel as [|fuel IH]; intros fuel' left token Hle; [apply extends_timeout|].
  destruct fuel' as [|fuel']; [lia|]. simpl.
  assert (Hf : (fuel <= fuel')%nat) by lia.
  repeat extends_step.
Qed.

Lemma extends_expression_loop fuel :
  forall fuel' left token, (fuel <= fuel')%nat ->
    extends (expression_loop operand fuel left token)
            (expression_loop operand' fuel' left token).
Proof.
  induction fuel as [|fuel IH]; intros fuel' left token Hle; [apply extends_timeout|].
  destruct fuel' as [|fuel']; [lia|]. simpl.
  assert (Hf : (fuel <= fuel')%nat) by lia.
  repeat extends_step.
Qed.

End ExtendsLoops.

Lemma extends_term_of prim prim' fuel fuel' :
  extends prim prim' -> (fuel <= fuel')%nat ->
  extends (term_of prim fuel) (term_of prim' fuel').
Proof.
  intros Hp Hle. unfold term_of. repeat extends_step. now apply extends_term_loop.
Qed.

Lemma extends_expression_of prim prim' fuel fuel' :
  extends prim prim' -> (fuel <= fuel')%nat ->
  extends (expression_of prim fuel) (expression_of prim' fuel').
Proof.
  intros Hp Hle. unfold expression_of.
  pose proof (extends_term_of _ _ _ _ Hp Hle).
  repeat extends_step. now apply extends_expression_loop.
Qed.

Lemma extends_primary n : forall m, (n <= m)%nat -> extends (primary n) (primary m).
Proof.
  induction n as [|n IH]; intros m Hle; [apply extends_timeout|].
  destruct m as [|m]; [lia|]. simpl.
  assert (Hp : extends (primary n) (primary m)) by (apply IH; lia).
  assert (He : extends (expression_of (primary n) n) (expression_of (primary m) m))
    by (apply extends_expression_of; [exact Hp|lia]).
  repeat extends_step.
Qed.

Lemma extends_expression n m : (n <= m)%nat -> extends (expression n) (expression m).
Proof. intros H. apply extends_expression_of; [now apply extends_primary|exact H]. Qed.

Lemma extends_statement n m : (n <= m)%nat -> extends (statement n) (statement m).
Proof.
  intros H. pose proof (extends_expression n m H) as He.
  assert (Hd : extends (declaration n) (declaration m)).
  { unfold declaration. repeat extends_step. }
  unfold statement. repeat extends_step.
Qed.

Lemma extends_calculation_loop stmt stmt' :
  extends stmt stmt' ->
  forall fuel fuel' result, (fuel <= fuel')%nat ->
    extends (calculation_loop stmt fuel result) (calculation_loop stmt' fuel' result).
Proof.
  intros Hs. induction fuel as [|fuel IH]; intros fuel' result Hle; [apply extends_timeout|].
  destruct fuel' as [|fuel']; [lia|]. simpl.
  assert (Hf : (fuel <= fuel')%nat) by lia.
  repeat extends_step.
Qed.

(** What [calculation] does with enough fuel it does with any more. *)
Lemma calculation_more_fuel n m st r st' :
  (n <= m)%nat -> calculation n st = (r, st') -> r <> Timeout ->
  calculation m st = (r, st').
Proof.
  intros Hle. unfold calculation.
  apply extends_calculation_loop; [now apply extends_statement|exact Hle].
Qed.

(** The outcome of [evaluate] is the outcome of [calculation] on the line
    at every larger fuel. *)
Theorem evaluate_any_fuel input vt fuel :
  (String.length input < fuel)%nat ->
  evaluate input vt
  = (fst (calculation fuel (TokenStream.new (IStream.open input), vt)),
     snd (snd (calculation fuel (TokenStream.new (IStream.open input), vt)))).
Proof.
  intros Hlt. pose proof (evaluate_terminates input vt) as Ht. unfold evaluate in *.
  destruct (calculation (S (String.length input)) _) as [r st'] eqn:E.
  simpl in Ht. now rewrite (calculation_more_fuel _ fuel _ _ _ Hlt E Ht).
Qed.

(** * Further properties of the code *)

(** ** The table of variables, continued *)

Lemma lookup_getVariable n vars :
  VarTable.lookup n vars
  = match VarTable.getVariable n vars with
    | Some i => option_map var_value (nth_error vars i)
    | None => None
    end.
Proof.
  induction vars as [|var rest IH]; simpl; [reflexivity|].
  rewrite (String.eqb_sym n).
  destruct (String.eqb (var_name var) n); [reflexivity|].
  rewrite IH. now destruct (VarTable.getVariable n rest).
Qed.

Lemma getVariable_first n vars i :
  VarTable.getVariable n vars = Some i ->
  forall j var, (j < i)%nat -> nth_error vars j = Some var -> var_name var <> n.
Proof.
  revert i. induction vars as [|w rest IH]; simpl; intros i H j var Hj Hn; [discriminate|].
  destruct (String.eqb_spec (var_name w) n) as [Heq|Hne].
  - injection H as <-. lia.
  - destruct (VarTable.getVariable n rest) as [i'|] eqn:E; [|discriminate].
    injection H as <-. destruct j as [|j]; simpl in Hn.
    + now injection Hn as <-.
    + apply (IH i' eq_refl j var); [lia|exact Hn].
Qed.

(** X1: the two searches of the table agree.  [getVariable] finds the first
    variable with the name, [get] returns the value of that very variable,
    and [get] throws exactly when [getVariable] finds none, which is when no
    variable has the name. *)
Theorem get_reads_what_getVariable_finds (n : string) (vt : VarTable) :
  (forall i, VarTable.getVariable n (variables vt) = Some i ->
     exists var, nth_error (variables vt) i = Some var
       /\ var_name var = n
       /\ VarTable.get n vt = (Ret (var_value var), vt)
       /\ forall j w, (j < i)%nat -> nth_error (variables vt) j = Some w -> var_name w <> n)
  /\ (VarTable.getVariable n (variables vt) = None <->
      VarTable.get n vt = (Throw (UndefinedVariableError n), vt))
  /\ (VarTable.getVariable n (variables vt) = None <-> ~ In n (VarTable.names vt)).
Proof.
  unfold VarTable.get. rewrite lookup_getVariable. split; [|split].
  - intros i E. rewrite E.
    destruct (getVariable_some_name _ _ _ E) as (var & Hi & Hn).
    exists var. rewrite Hi. simpl. repeat split; auto.
    apply (getVariable_first _ _ _ E).
  - destruct (VarTable.getVariable n (variables vt)) as [i|] eqn:E.
    + destruct (getVariable_some_name _ _ _ E) as (var & Hi & _). rewrite Hi. simpl.
      split; discriminate.
    + split; reflexivity.
  - split; [apply getVariable_none_not_in|].
    intros Hn. destruct (VarTable.getVariable n (variables vt)) as [i|] eqn:E; [|reflexivity].
    destruct (getVariable_some_name _ _ _ E) as (var & Hi & Hv).
    contradict Hn. unfold VarTable.names. rewrite <- Hv.
    apply in_map. now apply nth_error_In with i.
Qed.

Lemma get_reads_what_getVariable_finds_witness :
  let vt := {| variables := [ {| var_name := "a"; var_value := 1%float |};
                             {| var_name := "b"; var_value := 2%float |};
                             {| var_name := "b"; var_value := 3%float |} ] |} in
  VarTable.getVariable "b" (variables vt) = Some 1%nat
  /\ VarTable.get "b" vt = (Ret 2%float, vt).
Proof.
  intros vt. split; [reflexivity|].
  destruct (proj1 (get_reads_what_getVariable_finds "b" vt) 1%nat eq_refl)
    as (var & Hi & _ & Hg & _).
  injection Hi as <-. exact Hg.
Defined.

(** X2: [define] touches one name.  Every other name reads as before, a
    second [define] of the same name replaces the value of the first
    without adding a variable, and the table never shrinks. *)
Theorem define_frame (n : string) (v : double) (vt : VarTable) :
  let vt' := snd (VarTable.define n v vt) in
  (forall m, m <> n -> VarTable.get m vt' = (fst (VarTable.get m vt), vt'))
  /\ (forall v2,
        let vt'' := snd (VarTable.define n v2 vt') in
        VarTable.get n vt'' = (Ret v2, vt'')
        /\ VarTable.names vt'' = VarTable.names vt'
        /\ VarTable.size vt'' = VarTable.size vt')
  /\ (VarTable.size vt <= VarTable.size vt')%nat.
Proof.
  simpl. unfold VarTable.get, VarTable.names, VarTable.size. simpl. split; [|split].
  - intros m Hm. rewrite lookup_defined_other by congruence. reflexivity.
  - intros v2. rewrite lookup_defined. split; [reflexivity|].
    pose proof (lookup_defined n v (variables vt)) as Hl.
    remember (VarTable.defined n v (variables vt)) as vars' eqn:Hv. clear Hv.
    unfold VarTable.defined.
    destruct (VarTable.getVariable n vars') as [i|] eqn:E.
    + now rewrite assign_names, assign_length.
    + apply getVariable_none_lookup in E. congruence.
  - unfold VarTable.defined. destruct (VarTable.getVariable n (variables vt)).
    + rewrite assign_length. lia.
    + rewrite length_app. simpl. lia.
Qed.

Lemma define_frame_witness :
  let vt := {| variables := [ {| var_name := "a"; var_value := 1%float |} ] |} in
  VarTable.get "a" (snd (VarTable.define "b" 5%float vt))
  = (Ret 1%float, snd (VarTable.define "b" 5%float vt)).
Proof.
  intros vt.
  exact (proj1 (define_frame "b" 5%float vt) "a"%string ltac:(discriminate)).
Defined.

(** ** The scanner, continued *)

(** With the buffer empty, [get] works on the stream alone: the token once
    held by the buffer plays no part and stays where it is. *)
Lemma get_stale_buffer s b b' r ts' :
  TokenStream.get {| inputStream := s; bufferFull := false; buffer := b |} = (r, ts') ->
  TokenStream.get {| inputStream := s; bufferFull := false; buffer := b' |}
  = (r, {| inputStream := inputStream ts'; bufferFull := false; buffer := b' |})
  /\ buffer ts' = b.
Proof.
  unfold TokenStream.get, bind, TokenStream.doReadNextToken. simpl.
  destruct (IStream.extract_char s) as [och s1].
  destruct (IStream.eof s1); [simpl; intros [= <- <-]; auto|].
  destruct och as [ch|]; [|intros [= <- <-]; auto].
  destruct (TokenStream.scan ch s1) as [[t| | |] s2]; simpl;
    [destruct (TokenType_eqb (kind t) UNKNOWN)| | |]; intros [= <- <-]; auto.
Qed.

(** X3: the end of input is sticky.  Once [get] has read it off the
    stream, the buffer is empty and the stream has [eofbit], and from such
    a state every further [get] returns the end of input again, with no
    character read. *)
Theorem end_of_input_is_sticky :
  (forall ts t ts',
      bufferFull ts = false -> TokenStream.get ts = (Ret t, ts') -> kind t = INPUT_EOF ->
      t = Token_of_type INPUT_EOF
      /\ bufferFull ts' = false /\ eofbit (inputStream ts') = true)
  /\ (forall ts,
         bufferFull ts = false -> eofbit (inputStream ts) = true ->
         exists ts', TokenStream.get ts = (Ret (Token_of_type INPUT_EOF), ts')
           /\ bufferFull ts' = false /\ eofbit (inputStream ts') = true
           /\ pending (inputStream ts') = pending (inputStream ts)).
Proof.
  split.
  - intros ts t ts' Hb Hg Hk.
    pose proof (get_leaves_buffer_empty _ _ _ Hg) as Hb'.
    unfold TokenStream.get, bind in Hg. rewrite Hb in Hg.
    destruct (TokenStream.doReadNextToken ts) as [[t0|e| |] ts0] eqn:Hd; try discriminate.
    simpl in Hg. destruct (TokenType_eqb (kind t0) UNKNOWN); [discriminate|].
    injection Hg as -> ->.
    destruct (doReadNextToken_eof _ _ _ Hd Hk) as [He _].
    split; [|now split].
    revert Hd. unfold TokenStream.doReadNextToken.
    destruct (IStream.extract_char (inputStream ts)) as [och s].
    destruct (IStream.eof s); [now intros [= <- _]|].
    destruct och as [ch|]; [|discriminate].
    pose proof (scan_not_eof ch s) as Hs.
    destruct (TokenStream.scan ch s) as [r s0]. intros [= -> _].
    now destruct (Hs _ _ eq_refl).
  - intros ts Hb He.
    exists (TokenStream.set_inputStream ts (IStream.set_fail (inputStream ts))).
    unfold TokenStream.get, bind, TokenStream.doReadNextToken, IStream.extract_char,
      IStream.good, IStream.eof.
    rewrite Hb, He. simpl. rewrite He. auto.
Qed.

Lemma end_of_input_is_sticky_witness :
  let ts := TokenStream.new (IStream.open "  ") in
  fst (TokenStream.get ts) = Ret (Token_of_type INPUT_EOF)
  /\ fst (TokenStream.get (snd (TokenStream.get ts))) = Ret (Token_of_type INPUT_EOF).
Proof.
  intros ts.
  destruct (proj1 end_of_input_is_sticky ts (Token_of_type INPUT_EOF) (snd (TokenStream.get ts))
              eq_refl eq_refl eq_refl) as (_ & Hb & He).
  destruct (proj2 end_of_input_is_sticky (snd (TokenStream.get ts)) Hb He) as (ts' & Hg & _).
  split; [reflexivity|]. now rewrite Hg.
Defined.

Lemma scan_unrecognised c s :
  recognised c = false -> TokenStream.scan c s = (Ret (Token_of_type UNKNOWN), s).
Proof.
  unfold recognised, TokenStream.scan. intros H.
  repeat (apply orb_false_iff in H; destruct H as [H ?]).
  repeat match goal with E : _ = false |- _ => rewrite E; clear E end.
  reflexivity.
Qed.

Lemma get_throw_is_lexical ts e ts' :
  TokenStream.get ts = (Throw e, ts') -> e = LexError /\ bufferFull ts = false.
Proof.
  unfold TokenStream.get, bind.
  destruct (bufferFull ts); [discriminate|].
  destruct (TokenStream.doReadNextToken ts) as [[t|e0| |] ts0] eqn:Hd; try discriminate.
  - simpl. destruct (TokenType_eqb (kind t) UNKNOWN); [|discriminate].
    now intros [= <- _].
  - exfalso. revert Hd. unfold TokenStream.doReadNextToken.
    destruct (IStream.extract_char (inputStream ts)) as [och s].
    destruct (IStream.eof s); [discriminate|].
    destruct och as [ch|]; [|discriminate].
    destruct (TokenStream.scan ch s) as [r s0] eqn:Hs. intros [= -> _].
    revert Hs. unfold TokenStream.scan.
    repeat match goal with
           | |- context [if Ascii.eqb ch ?c then (Ret ?t, s) else _] =>
               destruct (Ascii.eqb ch c); [discriminate|]
           end.
    destruct (isdigit ch || Ascii.eqb ch ".").
    + destruct (IStream.extract_double (IStream.putback ch s)) as [[val|] s1]; discriminate.
    + destruct (isalpha ch); [|discriminate].
      destruct (TokenStream.readVariableOrKeyword ch s). discriminate.
Qed.

(** X4: the only exception of [get] is the lexical error, thrown when the
    stream is scanned; the token [UNKNOWN] is never returned from the
    stream; and a character that begins no token is consumed and answered
    with that error. *)
Theorem get_throws_only_lexical_errors :
  (forall ts e ts',
      TokenStream.get ts = (Throw e, ts') -> e = LexError /\ bufferFull ts = false)
  /\ (forall ts t ts',
         bufferFull ts = false -> TokenStream.get ts = (Ret t, ts') -> kind t <> UNKNOWN)
  /\ (forall ts c r,
         bufferFull ts = false -> IStream.good (inputStream ts) = true ->
         IStream.skipws (pending (inputStream ts)) = String c r ->
         recognised c = false ->
         TokenStream.get ts
         = (Throw LexError,
            TokenStream.set_inputStream ts
              {| pending := r; eofbit := false; failbit := false |})).
Proof.
  split; [exact get_throw_is_lexical|split].
  - intros ts t ts' Hb. unfold TokenStream.get, bind. rewrite Hb.
    destruct (TokenStream.doReadNextToken ts) as [[t0|e0| |] ts0]; try discriminate.
    simpl. destruct (TokenType_eqb (kind t0) UNKNOWN) eqn:Hk; [discriminate|].
    intros [= <- _]. now apply TokenType_eqb_neq.
  - intros ts c r Hb Hg Hs Hc.
    unfold TokenStream.get, bind, TokenStream.doReadNextToken, IStream.extract_char.
    rewrite Hb, Hg, Hs. simpl. now rewrite (scan_unrecognised _ _ Hc).
Qed.

Lemma get_throws_only_lexical_errors_witness :
  TokenStream.get (TokenStream.new (IStream.open " ;2"))
  = (Throw LexError,
     TokenStream.new {| pending := "2"; eofbit := false; failbit := false |}).
Proof.
  exact (proj2 (proj2 get_throws_only_lexical_errors)
           (TokenStream.new (IStream.open " ;2")) ";"%char "2"%string
           eq_refl eq_refl eq_refl eq_refl).
Defined.

Lemma append_nil_r (s : string) : (s ++ "")%string = s.
Proof. induction s as [|c r IH]; simpl; congruence. Qed.

Lemma append_snoc (s : string) c r : ((s ++ String c "") ++ r)%string = (s ++ String c r)%string.
Proof. induction s as [|d s IH]; simpl; congruence. Qed.

Lemma read_name_longest p :
  forall rest n, all_alnum p = true -> ends_name rest = true ->
    TokenStream.read_name (p ++ rest) n
    = ((n ++ p)%string,
       match rest with
       | EmptyString => IStream.at_end
       | _ => {| pending := rest; eofbit := false; failbit := false |}
       end).
Proof.
  induction p as [|c p IH]; intros rest n Hp Hr; simpl.
  - rewrite append_nil_r. destruct rest as [|c r]; [reflexivity|].
    simpl in *. apply negb_true_iff in Hr. now rewrite Hr.
  - simpl in Hp. apply andb_true_iff in Hp. destruct Hp as [Hc Hp].
    rewrite Hc, IH by assumption. now rewrite append_snoc.
Qed.

Lemma scan_letter c s :
  isalpha c = true ->
  TokenStream.scan c s
  = (Ret (fst (TokenStream.readVariableOrKeyword c s)),
     snd (TokenStream.readVariableOrKeyword c s)).
Proof.
  intros H. unfold TokenStream.scan.
  destruct (TokenStream.readVariableOrKeyword c s) as [t s'].
  destruct c as [[|] [|] [|] [|] [|] [|] [|] [|]]; try discriminate H; reflexivity.
Qed.

(** X5: a name is the longest run of letters and digits.  When the next
    character that is not white space is a letter, [get] takes it and every
    letter and digit that follows, up to the end of the line or the first
    other character, which stays in the stream; the text is the keyword
    when it is exactly [let], a name otherwise. *)
Theorem name_is_longest_run (ts : TokenStream) (c : ascii) (p rest : string) :
  bufferFull ts = false ->
  IStream.good (inputStream ts) = true ->
  IStream.skipws (pending (inputStream ts)) = String c (p ++ rest) ->
  isalpha c = true -> all_alnum p = true -> ends_name rest = true ->
  TokenStream.get ts
  = (Ret (if String.eqb (String c p) "let" then Token_of_type KW_LET
          else Token_of_name (String c p)),
     TokenStream.set_inputStream ts
       match rest with
       | EmptyString => IStream.at_end
       | _ => {| pending := rest; eofbit := false; failbit := false |}
       end).
Proof.
  intros Hb Hg Hs Hc Hp Hr.
  remember (String.eqb (String c p) "let") as keyword eqn:Hkw.
  unfold TokenStream.get, bind, TokenStream.doReadNextToken, IStream.extract_char.
  rewrite Hb, Hg, Hs. simpl.
  rewrite (scan_letter _ _ Hc). unfold TokenStream.readVariableOrKeyword.
  cbn [IStream.good pending eofbit failbit negb andb].
  rewrite (read_name_longest p rest _ Hp Hr).
  change (String c "" ++ p)%string with (String c p).
  rewrite <- Hkw. destruct keyword; reflexivity.
Qed.

Lemma name_is_longest_run_witness :
  TokenStream.get (TokenStream.new (IStream.open " let9+1"))
  = (Ret (Token_of_name "let9"),
     TokenStream.new {| pending := "+1"; eofbit := false; failbit := false |}).
Proof.
  exact (name_is_longest_run (TokenStream.new (IStream.open " let9+1"))
           "l"%char "et9"%string "+1"%string
           eq_refl eq_refl eq_refl eq_refl eq_refl eq_refl).
Defined.

(** ** White space *)

Lemma calculation_loop_first_get stmt fuel result st st' :
  on_ts TokenStream.get st = on_ts TokenStream.get st' ->
  calculation_loop stmt (S fuel) result st = calculation_loop stmt (S fuel) result st'.
Proof. intros H. simpl. unfold bind. now rewrite H. Qed.

(** X6: white space at the front of a line changes nothing: the line
    evaluates to the same outcome and leaves the same table. *)
Theorem leading_space_is_skipped (c : ascii) (input : string) (vt : VarTable) :
  isspace c = true -> evaluate (String c input) vt = evaluate input vt.
Proof.
  intros Hc.
  rewrite (evaluate_any_fuel input vt (S (S (String.length input)))) by lia.
  unfold evaluate, calculation. simpl String.length.
  rewrite (calculation_loop_first_get _ _ _
             (TokenStream.new (IStream.open (String c input)), vt)
             (TokenStream.new (IStream.open input), vt)).
  - now destruct (calculation_loop _ _ _ _).
  - unfold on_ts, TokenStream.get, bind, TokenStream.doReadNextToken, IStream.extract_char.
    simpl. now rewrite Hc.
Qed.

Lemma leading_space_is_skipped_witness :
  evaluate "  2*3" VarTable.empty = (Ret 6%float, VarTable.empty).
Proof.
  rewrite (leading_space_is_skipped " " " 2*3" VarTable.empty eq_refl).
  rewrite (leading_space_is_skipped " " "2*3" VarTable.empty eq_refl).
  vm_compute. reflexivity.
Defined.

(** ** The buffer is never filled twice *)

Section BufferSafe.

Context {A : Type}.
Variables (P : State -> Prop) (Q : A -> State -> Prop).

Lemma buffer_safe_ret a : (forall st, P st -> Q a st) -> buffer_safe P (ret a) Q.
Proof. intros H st Hp. simpl. auto. Qed.

Lemma buffer_safe_throw e : error_in_line e -> buffer_safe P (throw e) Q.
Proof. intros H st _. exact H. Qed.

Lemma buffer_safe_bind {B} (m : M State B) (k : B -> M State A) (R : B -> State -> Prop) :
  buffer_safe P m R -> (forall b, buffer_safe (R b) (k b) Q) -> buffer_safe P (bind m k) Q.
Proof.
  intros Hm Hk st Hp. specialize (Hm st Hp). unfold bind.
  destruct (m st) as [[b|e| |] s1]; try easy. now apply Hk.
Qed.

Lemma buffer_safe_weaken (P' : State -> Prop) (Q' : A -> State -> Prop) (m : M State A) :
  (forall st, P st -> P' st) -> (forall a st, Q' a st -> Q a st) ->
  buffer_safe P' m Q' -> buffer_safe P m Q.
Proof.
  intros Hp Hq Hm st H. specialize (Hm st (Hp st H)).
  destruct (m st) as [[a|e| |] s1]; auto.
Qed.

End BufferSafe.

Ltac in_line :=
  unfold error_in_line, LexError, DivisionByZeroError, UndefinedVariableError;
  first [ left; reflexivity
        | right; left; reflexivity
        | right; right; left; reflexivity
        | right; right; right; left; reflexivity
        | right; right; right; right; left; eexists; reflexivity
        | right; right; right; right; right; left; reflexivity
        | right; right; right; right; right; right; eexists; reflexivity ].

Lemma buffer_safe_any {A} (P : State -> Prop) (m : M State A) (Q : A -> State -> Prop) :
  buffer_safe (fun _ => True) m Q -> buffer_safe P m Q.
Proof. apply buffer_safe_weaken; auto. Qed.

Lemma buffer_safe_get (P : State -> Prop) :
  buffer_safe P (on_ts TokenStream.get) (fun _ st' => buffer_empty st').
Proof.
  intros st _. unfold on_ts, buffer_empty.
  destruct (TokenStream.get (fst st)) as [[t|e| |] ts'] eqn:E; simpl; auto.
  - apply (get_leaves_buffer_empty _ _ _ E).
  - destruct (get_throw_is_lexical _ _ _ E) as [-> _]. in_line.
Qed.

Lemma buffer_safe_putback (P : State -> Prop) t :
  (forall st, P st -> buffer_empty st) ->
  buffer_safe P (on_ts (TokenStream.putback t)) anything.
Proof.
  intros H st Hp. specialize (H st Hp). unfold on_ts, TokenStream.putback, buffer_empty in *.
  rewrite H. exact I.
Qed.

Lemma buffer_safe_vars_get (P : State -> Prop) n :
  buffer_safe P (on_vars (VarTable.get n)) anything.
Proof.
  intros st _. unfold on_vars, VarTable.get. simpl.
  destruct (VarTable.lookup n (variables (snd st))); simpl; [exact I|in_line].
Qed.

Lemma buffer_safe_define (P : State -> Prop) n v :
  buffer_safe P (on_vars (VarTable.define n v)) anything.
Proof. intros st _. exact I. Qed.

Ltac buffer_step :=
  lazymatch goal with
  | |- buffer_safe _ (bind (on_ts TokenStream.get) _) _ =>
      eapply buffer_safe_bind; [apply buffer_safe_get|intro]
  | |- buffer_safe _ (bind (on_ts (TokenStream.putback _)) _) _ =>
      eapply buffer_safe_bind; [apply buffer_safe_putback; intros ? H; exact H|intro]
  | |- buffer_safe _ (bind (on_vars (VarTable.define _ _)) _) _ =>
      eapply buffer_safe_bind; [apply buffer_safe_define|intro]
  | |- buffer_safe _ (bind _ _) _ =>
      eapply buffer_safe_bind; [apply buffer_safe_any; eassumption|intro]
  | |- buffer_safe _ (on_vars (VarTable.get _)) _ => apply buffer_safe_vars_get
  | |- buffer_safe _ (match kind ?t with _ => _ end) _ => destruct (kind t)
  | |- buffer_safe _ (if ?b then _ else _) _ => destruct b
  | |- buffer_safe _ (ret _) _ => apply buffer_safe_ret; intros; exact I
  | |- buffer_safe _ (throw _) _ => apply buffer_safe_throw; in_line
  | |- buffer_safe _ _ _ => solve [eauto using buffer_safe_any]
  end.

Section BufferSafeLoops.

Variable operand : M State double.
Hypothesis operand_safe : buffer_safe (fun _ => True) operand anything.

Lemma term_loop_buffer_safe fuel :
  forall left token, buffer_safe buffer_empty (term_loop operand fuel left token) anything.
Proof.
  induction fuel as [|fuel IH]; intros left token; [intros st _; exact I|].
  simpl. repeat buffer_step.
Qed.

Lemma expression_loop_buffer_safe fuel :
  forall left token,
    buffer_safe buffer_empty (expression_loop operand fuel left token) anything.
Proof.
  induction fuel as [|fuel IH]; intros left token; [intros st _; exact I|].
  simpl. repeat buffer_step.
Qed.

End BufferSafeLoops.

Lemma term_of_buffer_safe prim fuel :
  buffer_safe (fun _ => True) prim anything ->
  buffer_safe (fun _ => True) (term_of prim fuel) anything.
Proof.
  intros Hp. unfold term_of. repeat buffer_step.
  now apply term_loop_buffer_safe.
Qed.

Lemma expression_of_buffer_safe prim fuel :
  buffer_safe (fun _ => True) prim anything ->
  buffer_safe (fun _ => True) (expression_of prim fuel) anything.
Proof.
  intros Hp. unfold expression_of.
  pose proof (term_of_buffer_safe prim fuel Hp) as Ht.
  repeat buffer_step. now apply expression_loop_buffer_safe.
Qed.

Lemma primary_buffer_safe fuel : buffer_safe (fun _ => True) (primary fuel) anything.
Proof.
  induction fuel as [|fuel IH]; [intros st _; exact I|]. simpl.
  pose proof (expression_of_buffer_safe _ fuel IH) as He.
  repeat buffer_step.
Qed.

Lemma statement_buffer_safe fuel : buffer_safe (fun _ => True) (statement fuel) anything.
Proof.
  pose proof (expression_of_buffer_safe _ fuel (primary_buffer_safe fuel)) as He.
  fold (expression fuel) in He.
  unfold statement, declaration. repeat buffer_step.
Qed.

Lemma calculation_loop_buffer_safe stmt :
  buffer_safe (fun _ => True) stmt anything ->
  forall fuel result,
    buffer_safe (fun _ => True) (calculation_loop stmt fuel result) anything.
Proof.
  intros Hs. induction fuel as [|fuel IH]; intros result; [intros st _; exact I|].
  simpl. repeat buffer_step.
Qed.

Lemma error_in_line_not_internal e : error_in_line e -> e <> InternalError.
Proof.
  intros [->|[->|[->|[->|[[n ->]|[->|[n ->]]]]]]]; discriminate.
Qed.

Lemma calculation_throws_errors_in_line fuel st e :
  fst (calculation fuel st) = Throw e -> error_in_line e.
Proof.
  pose proof (calculation_loop_buffer_safe _ (statement_buffer_safe fuel) fuel 0%float st I)
    as Hc.
  unfold calculation.
  destruct (calculation_loop (statement fuel) fuel 0%float st) as [[v|e0| |] st'];
    simpl; try discriminate. now intros [= <-].
Qed.

(** X7: the evaluator keeps to the one-token protocol of the scanner.
    Whatever the state it starts in, [calculation] never ends in the
    internal error of [putback], and neither does [evaluate] on any line:
    every [putback] in [main.cpp] follows a [get]. *)
Theorem putback_never_fails_in_calculation :
  (forall fuel st, fst (calculation fuel st) <> Throw InternalError)
  /\ (forall input vt, fst (evaluate input vt) <> Throw InternalError).
Proof.
  assert (H : forall fuel st, fst (calculation fuel st) <> Throw InternalError).
  { intros fuel st E.
    now apply (error_in_line_not_internal _ (calculation_throws_errors_in_line _ _ _ E)). }
  split; [exact H|].
  intros input vt. unfold evaluate.
  specialize (H (S (String.length input)) (TokenStream.new (IStream.open input), vt)).
  now destruct (calculation _ _).
Qed.

(** X17: the exceptions of a line.  Whatever [evaluate] throws is the
    lexical error, one of the four syntax errors (missing right
    parenthesis, expected primary, missing name after [let], missing [=]),
    the division by zero, or the undefined variable, with the messages of
    the source. *)
Theorem evaluate_throws_errors_in_line (input : string) (vt : VarTable) (e : exception) :
  fst (evaluate input vt) = Throw e -> error_in_line e.
Proof.
  unfold evaluate.
  pose proof (calculation_throws_errors_in_line (S (String.length input))
                (TokenStream.new (IStream.open input), vt) e) as H.
  destruct (calculation _ _) as [r st']. exact H.
Qed.

Lemma evaluate_throws_errors_in_line_witness :
  error_in_line (runtime_error "Missing '=' in a declaration of 'rate'").
Proof.
  apply (evaluate_throws_errors_in_line "let rate 3" VarTable.empty).
  vm_compute. reflexivity.
Defined.

(** ** Tables that agree *)

Lemma reads_respects {A} (m : M State A) : reads_table m -> respects_names m.
Proof.
  intros Hm ts vt1 vt2 Ha. destruct (Hm ts vt1 vt2 Ha) as (r & ts' & H1 & H2).
  now exists r, ts', vt1, vt2.
Qed.

Lemma respects_bind {A B} (m : M State A) (k : A -> M State B) :
  respects_names m -> (forall a, respects_names (k a)) -> respects_names (bind m k).
Proof.
  intros Hm Hk ts vt1 vt2 Ha.
  destruct (Hm ts vt1 vt2 Ha) as (r & ts' & vt1' & vt2' & H1 & H2 & Ha').
  unfold bind. rewrite H1, H2.
  destruct r as [a|e| |]; [now apply Hk| | |]; eauto 8.
Qed.

Lemma agree_define n v vt1 vt2 :
  agree vt1 vt2 ->
  agree (snd (VarTable.define n v vt1)) (snd (VarTable.define n v vt2)).
Proof.
  intros Ha m. simpl. destruct (String.eqb_spec m n) as [->|Hne].
  - now rewrite !lookup_defined.
  - rewrite !lookup_defined_other by congruence. apply Ha.
Qed.

Lemma respects_define n v : respects_names (on_vars (VarTable.define n v)).
Proof.
  intros ts vt1 vt2 Ha.
  exists (Ret v), ts, (snd (VarTable.define n v vt1)), (snd (VarTable.define n v vt2)).
  repeat split. now apply agree_define.
Qed.

Lemma respects_statement fuel : respects_names (statement fuel).
Proof.
  pose proof (reads_respects _ (reads_expression fuel)) as He.
  assert (Hts : forall A (m : M TokenStream A), respects_names (on_ts m))
    by (intros; apply reads_respects, reads_on_ts).
  assert (Hth : forall e, respects_names (@throw State double e))
    by (intros; apply reads_respects, reads_throw).
  assert (Hd : respects_names (declaration fuel)).
  { unfold declaration.
    apply respects_bind; [apply Hts|intros token].
    destruct (negb _); [apply respects_bind; [apply Hts|intro; apply Hth]|].
    apply respects_bind; [apply Hts|intros token'].
    destruct (negb _); [apply respects_bind; [apply Hts|intro; apply Hth]|].
    apply respects_bind; [exact He|intros v].
    apply respects_bind; [apply respects_define|intro].
    apply reads_respects, reads_ret. }
  unfold statement. apply respects_bind; [apply Hts|intros token].
  destruct (kind token); try exact Hd;
    (apply respects_bind; [apply Hts|intro; exact He]).
Qed.

Lemma respects_calculation_loop stmt :
  respects_names stmt ->
  forall fuel result, respects_names (calculation_loop stmt fuel result).
Proof.
  intros Hs. induction fuel as [|fuel IH]; intros result; simpl.
  - apply reads_respects, reads_timeout.
  - apply respects_bind; [apply reads_respects, reads_on_ts|intros token].
    destruct (TokenType_eqb _ _); [apply reads_respects, reads_ret|].
    apply respects_bind; [apply reads_respects, reads_on_ts|intro].
    apply respects_bind; [exact Hs|intros v]. apply IH.
Qed.

(** X8: a line is evaluated against the values of the names, not against
    the vector that holds them.  On two tables that give every name the
    same value, whatever the order of their variables and the shadowed
    duplicates behind them, [evaluate] ends in the same way and leaves
    tables that again give every name the same value. *)
Theorem evaluate_respects_names (input : string) (vt1 vt2 : VarTable) :
  agree vt1 vt2 ->
  fst (evaluate input vt1) = fst (evaluate input vt2)
  /\ agree (snd (evaluate input vt1)) (snd (evaluate input vt2)).
Proof.
  intros Ha. unfold evaluate, calculation.
  destruct (respects_calculation_loop _ (respects_statement (S (String.length input)))
              (S (String.length input)) 0%float
              (TokenStream.new (IStream.open input)) vt1 vt2 Ha)
    as (r & ts' & vt1' & vt2' & H1 & H2 & Ha').
  rewrite H1, H2. simpl. auto.
Qed.

Lemma evaluate_respects_names_witness :
  let a := {| var_name := "a"; var_value := 1%float |} in
  let b := {| var_name := "b"; var_value := 2%float |} in
  fst (evaluate "let c = a - b" {| variables := [a; b] |})
  = fst (evaluate "let c = a - b" {| variables := [b; a; b] |}).
Proof.
  intros a b.
  refine (proj1 (evaluate_respects_names "let c = a - b" {| variables := [a; b] |}
                   {| variables := [b; a; b] |} _)).
  intros n. simpl.
  destruct (String.eqb n "a") eqn:Ea; destruct (String.eqb n "b") eqn:Eb; try reflexivity.
  apply String.eqb_eq in Ea, Eb. congruence.
Defined.

(** ** Expressions of one operand *)

Lemma expression_one_primary n st v st1 t' st2 :
  primary n st = (Ret v, st1) ->
  on_ts TokenStream.get st1 = (Ret t', st2) ->
  is_operator (kind t') = false ->
  expression n st
  = (Ret v, ({| inputStream := inputStream (fst st2); bufferFull := true; buffer := t' |},
             snd st2)).
Proof.
  intros Hp Hg Hop.
  destruct n as [|n]; [discriminate Hp|].
  set (full := {| inputStream := inputStream (fst st2); bufferFull := true; buffer := t' |}).
  assert (Hb : bufferFull (fst st2) = false).
  { apply on_ts_inv in Hg. destruct Hg as [Hg _]. apply (get_leaves_buffer_empty _ _ _ Hg). }
  assert (Hput : on_ts (TokenStream.putback t') st2 = (Ret tt, (full, snd st2))).
  { unfold on_ts, TokenStream.putback. now rewrite Hb. }
  assert (Hterm : term_of (primary (S n)) (S n) st = (Ret v, (full, snd st2))).
  { unfold term_of. rewrite (bind_ret _ _ _ _ _ Hp), (bind_ret _ _ _ _ _ Hg).
    cbn [term_loop].
    destruct (kind t'); try discriminate Hop; now rewrite (bind_ret _ _ _ _ _ Hput). }
  unfold expression, expression_of. rewrite (bind_ret _ _ _ _ _ Hterm).
  unfold bind at 1. cbn [on_ts TokenStream.get fst snd full bufferFull buffer inputStream].
  cbn [expression_loop].
  destruct (kind t'); try discriminate Hop; reflexivity.
Qed.

(** X9: a line that holds one number evaluates to it, and a line that holds
    one defined name evaluates to its value; the table is left as it was. *)
Theorem line_of_one_operand (input : string) (t : Token) (ts1 : TokenStream)
    (t' : Token) (ts2 : TokenStream) (vt : VarTable) (v : double) :
  TokenStream.get (TokenStream.new (IStream.open input)) = (Ret t, ts1) ->
  (kind t = NUMBER /\ value t = v)
  \/ (kind t = NAME /\ VarTable.lookup (name t) (variables vt) = Some v) ->
  TokenStream.get ts1 = (Ret t', ts2) ->
  kind t' = INPUT_EOF ->
  evaluate input vt = (Ret v, vt).
Proof.
  intros Hg Hk Hg' Hk'.
  rewrite (evaluate_any_fuel input vt (S (S (String.length input)))) by lia.
  set (N := S (S (String.length input))).
  pose proof (get_leaves_buffer_empty _ _ _ Hg) as Hb.
  destruct ts1 as [s1 bf b1]. simpl in Hb. subst bf.
  destruct (get_stale_buffer _ _ t _ _ Hg') as [Hg2 _].
  set (f1 := {| inputStream := s1; bufferFull := true; buffer := t |}) in *.
  set (e1 := {| inputStream := s1; bufferFull := false; buffer := t |}) in *.
  set (e2 := {| inputStream := inputStream ts2; bufferFull := false; buffer := t |}) in *.
  set (f2 := {| inputStream := inputStream ts2; bufferFull := true; buffer := t' |}).
  set (e3 := {| inputStream := inputStream ts2; bufferFull := false; buffer := t' |}).
  assert (Hprim : primary N (f1, vt) = (Ret v, (e1, vt))).
  { unfold N. cbn [primary]. unfold bind at 1.
    cbn [on_ts TokenStream.get fst snd f1 bufferFull buffer inputStream].
    destruct Hk as [[-> <-]|[-> Hl]]; [reflexivity|].
    unfold on_vars, VarTable.get. simpl. now rewrite Hl. }
  assert (Hexpr : expression N (f1, vt) = (Ret v, (f2, vt))).
  { apply (expression_one_primary N (f1, vt) v (e1, vt) t' (e2, vt) Hprim).
    - now apply on_ts_eq.
    - now rewrite Hk'. }
  assert (Hstmt : statement N (f1, vt) = (Ret v, (f2, vt))).
  { rewrite (statement_expression N (f1, vt) t (e1, vt) (f1, vt)); [exact Hexpr| | |];
      [reflexivity|destruct Hk as [[-> _]|[-> _]]; discriminate|reflexivity]. }
  assert (Hcalc : calculation N (TokenStream.new (IStream.open input), vt)
                  = (Ret v, (e3, vt))).
  { unfold calculation, N.
    rewrite (calculation_loop_next _ _ _ _ t
               ({| inputStream := s1; bufferFull := false; buffer := b1 |}, vt)
               (f1, vt) v (f2, vt));
      [ | now apply on_ts_eq | destruct Hk as [[-> _]|[-> _]]; discriminate
        | reflexivity | exact Hstmt ].
    apply calculation_loop_eof with t'; [reflexivity|exact Hk']. }
  now rewrite Hcalc.
Qed.

Lemma line_of_one_operand_witness :
  evaluate " rate " {| variables := [ {| var_name := "rate"; var_value := 0.5%float |} ] |}
  = (Ret 0.5%float, {| variables := [ {| var_name := "rate"; var_value := 0.5%float |} ] |}).
Proof.
  apply (line_of_one_operand " rate " (Token_of_name "rate")
           (TokenStream.new {| pending := " "; eofbit := false; failbit := false |})
           (Token_of_type INPUT_EOF)
           (TokenStream.new IStream.at_end));
    [reflexivity | right; split; reflexivity | reflexivity | reflexivity].
Defined.

(** ** Signs *)

Lemma opp_involutive (v : double) : (- - v)%float = v.
Proof.
  rewrite <- (SF2Prim_Prim2SF (- - v)), !opp_spec.
  rewrite <- (SF2Prim_Prim2SF v) at 2.
  f_equal. destruct (Prim2SF v) as [[|]|[|]| |[|] m e]; reflexivity.
Qed.

(** X10: signs in front of a primary.  A plus sign leaves its value as it
    is, a minus sign negates it, and two minus signs give back the very
    value, bit for bit; the signs take no more of the input than their own
    tokens. *)
Theorem signs_before_a_primary (n : nat) (st : State) (v : double) (st' : State) :
  primary n st = (Ret v, st') ->
  (forall st0 t, on_ts TokenStream.get st0 = (Ret t, st) -> kind t = ADD ->
     primary (S n) st0 = (Ret v, st'))
  /\ (forall st0 t, on_ts TokenStream.get st0 = (Ret t, st) -> kind t = SUB ->
        primary (S n) st0 = (Ret (- v)%float, st'))
  /\ (forall st0 t0 st1 t1,
        on_ts TokenStream.get st0 = (Ret t0, st1) -> kind t0 = SUB ->
        on_ts TokenStream.get st1 = (Ret t1, st) -> kind t1 = SUB ->
        primary (S (S n)) st0 = (Ret v, st')).
Proof.
  intros Hp.
  assert (Hminus : forall m st0 t w sta stb,
            primary m sta = (Ret w, stb) ->
            on_ts TokenStream.get st0 = (Ret t, sta) -> kind t = SUB ->
            primary (S m) st0 = (Ret (- w)%float, stb)).
  { intros m st0 t w sta stb Hm Hg Hk. cbn [primary].
    now rewrite (bind_ret _ _ _ _ _ Hg), Hk, (bind_ret _ _ _ _ _ Hm). }
  split; [|split].
  - intros st0 t Hg Hk. cbn [primary]. now rewrite (bind_ret _ _ _ _ _ Hg), Hk.
  - intros st0 t. now apply Hminus.
  - intros st0 t0 st1 t1 Hg0 Hk0 Hg1 Hk1.
    rewrite <- (opp_involutive v).
    apply (Hminus (S n) st0 t0 (- v)%float st1 st'); [|assumption|assumption].
    now apply (Hminus n st1 t1 v st st').
Qed.

Lemma signs_before_a_primary_witness :
  primary 3 (TokenStream.new (IStream.open "- -7)"), VarTable.empty)
  = (Ret 7%float,
     (TokenStream.new {| pending := ")"; eofbit := false; failbit := false |},
      VarTable.empty)).
Proof.
  apply (proj2 (proj2 (signs_before_a_primary 1
                         (TokenStream.new (IStream.open "7)"), VarTable.empty) 7%float
                         (TokenStream.new {| pending := ")"; eofbit := false;
                                             failbit := false |}, VarTable.empty)
                         ltac:(vm_compute; reflexivity)))
           (TokenStream.new (IStream.open "- -7)"), VarTable.empty)
           (Token_of_type SUB)
           (TokenStream.new (IStream.open " -7)"), VarTable.empty)
           (Token_of_type SUB));
    vm_compute; reflexivity.
Defined.

(** ** Declarations *)

(** X11: a declaration stores what it returns.  When [let], a name and [=]
    are followed by an expression that returns [v], the statement returns
    [v], the scanner is where the expression left it, and the table is the
    one [define] makes of the table before: the name reads [v] and every
    other name reads as before. *)
Theorem declaration_defines_and_returns
    (n : nat) (st : State) (t0 : Token) (st1 : State) (t : Token) (st2 : State)
    (t2 : Token) (st3 : State) (v : double) (st4 : State) :
  on_ts TokenStream.get st = (Ret t0, st1) -> kind t0 = KW_LET ->
  on_ts TokenStream.get st1 = (Ret t, st2) -> kind t = NAME ->
  on_ts TokenStream.get st2 = (Ret t2, st3) -> kind t2 = EQUALS ->
  expression n st3 = (Ret v, st4) ->
  let vt' := snd (VarTable.define (name t) v (snd st)) in
  statement n st = (Ret v, (fst st4, vt'))
  /\ VarTable.get (name t) vt' = (Ret v, vt')
  /\ (forall m, m <> name t ->
        VarTable.lookup m (variables vt') = VarTable.lookup m (variables (snd st))).
Proof.
  intros Hg0 Hk0 Hg1 Hk1 Hg2 Hk2 He vt'.
  assert (Hvt : snd st4 = snd st).
  { apply (reads_keeps _ (reads_expression n)) in He.
    apply on_ts_inv in Hg0, Hg1, Hg2.
    destruct Hg0 as [_ H0], Hg1 as [_ H1], Hg2 as [_ H2]. congruence. }
  split; [|split].
  - unfold statement. rewrite (bind_ret _ _ _ _ _ Hg0), Hk0.
    unfold declaration. rewrite (bind_ret _ _ _ _ _ Hg1), Hk1. cbn [TokenType_eqb negb].
    rewrite (bind_ret _ _ _ _ _ Hg2), Hk2. cbn [TokenType_eqb negb].
    rewrite (bind_ret _ _ _ _ _ He).
    unfold bind, on_vars, VarTable.define, ret. simpl. subst vt'. simpl. now rewrite Hvt.
  - subst vt'. unfold VarTable.get. simpl. now rewrite lookup_defined.
  - intros m Hm. subst vt'. simpl. apply lookup_defined_other. congruence.
Qed.

Lemma declaration_defines_and_returns_witness :
  let vt := {| variables := [ {| var_name := "a"; var_value := 4%float |} ] |} in
  exists ts',
    statement 4 (TokenStream.new (IStream.open "let b = a/8"), vt)
    = (Ret 0.5%float, (ts', snd (VarTable.define "b" 0.5%float vt))).
Proof.
  intros vt.
  set (st := (TokenStream.new (IStream.open "let b = a/8"), vt)).
  set (st1 := snd (on_ts TokenStream.get st)).
  set (st2 := snd (on_ts TokenStream.get st1)).
  set (st3 := snd (on_ts TokenStream.get st2)).
  exists (fst (snd (expression 4 st3))).
  apply (proj1 (declaration_defines_and_returns 4 st (Token_of_type KW_LET) st1
                  (Token_of_name "b") st2 (Token_of_type EQUALS) st3 0.5%float
                  (snd (expression 4 st3))
                  ltac:(vm_compute; reflexivity) eq_refl
                  ltac:(vm_compute; reflexivity) eq_refl
                  ltac:(vm_compute; reflexivity) eq_refl
                  ltac:(vm_compute; reflexivity))).
Defined.

(** ** The session *)

(** X12: the loop of [main].  The line [q] ends the session: it prints
    nothing, the table stays as the lines before it left it, and no line
    after it is read.  Without a [q], every line prints once, and when the
    input runs out the loop body runs one more time on an empty line, so
    the session ends with one more result, 0. *)
Theorem main_loop_session (vt : VarTable) :
  (forall before after,
      main_loop (before ++ "q"%string :: after) vt = main_loop (before ++ ["q"%string]) vt)
  /\ (forall after, main_loop ("q"%string :: after) vt = ([], vt))
  /\ (forall lines,
         no_quit lines = true ->
         exists outs,
           fst (main_loop lines vt) = outs ++ [Ret 0%float]
           /\ List.length outs = List.length lines).
Proof.
  split; [|split].
  - intros before after. revert vt.
    induction before as [|input rest IH]; intros vt; simpl; [reflexivity|].
    destruct (String.eqb input "q"); [reflexivity|].
    destruct (evaluate input vt) as [r vt1]. now rewrite IH.
  - reflexivity.
  - intros lines. revert vt.
    induction lines as [|input rest IH]; intros vt Hq.
    + exists []. split; reflexivity.
    + simpl in Hq. apply andb_true_iff in Hq. destruct Hq as [Hq Hrest].
      apply negb_true_iff in Hq. simpl main_loop. rewrite Hq.
      destruct (evaluate input vt) as [r vt1].
      destruct (IH vt1 Hrest) as (outs & Ho & Hl).
      destruct (main_loop rest vt1) as [out vt']. simpl in *.
      exists (r :: outs). subst out. simpl. auto.
Qed.

Lemma main_loop_session_witness :
  let lines := ["let x = 3"; "x + y"; "x + 2"]%string in
  no_quit lines = true
  /\ exists outs,
       fst (main_loop lines VarTable.empty) = outs ++ [Ret 0%float]
       /\ List.length outs = 3%nat.
Proof.
  intros lines. split; [reflexivity|].
  exact (proj2 (proj2 (main_loop_session VarTable.empty)) lines eq_refl).
Defined.

Example main_loop_ex1 :
  main_loop ["let x = 3"; "x + y"; "x + 2"; "q"; "let x = 4"]%string VarTable.empty
  = ([Ret 3%float; Throw (UndefinedVariableError "y"); Ret 5%float],
     {| variables := [ {| var_name := "x"; var_value := 3%float |} ] |}).
Proof. vm_compute. reflexivity. Qed.


(** ** [ignore], continued *)

(** X13: [get] takes its token off the input.  The input still to be read
    (the characters of the stream and the token in the buffer) never grows,
    it shrinks with every token but the end of input, and the buffer is
    empty afterwards. *)
Theorem get_consumes_its_token (ts : TokenStream) (t : Token) (ts' : TokenStream) :
  TokenStream.get ts = (Ret t, ts') ->
  (remaining ts' <= remaining ts)%nat
  /\ (kind t <> INPUT_EOF -> (remaining ts' < remaining ts)%nat)
  /\ bufferFull ts' = false.
Proof.
  intros Hg. pose proof (get_remaining _ _ _ Hg) as Hr. simpl in Hr.
  split; [lia|split].
  - intros Hk. rewrite (weight_not_eof _ Hk) in Hr. lia.
  - apply (get_leaves_buffer_empty _ _ _ Hg).
Qed.

Lemma get_consumes_its_token_witness :
  let ts := TokenStream.new (IStream.open " 12+x") in
  remaining ts = 5%nat /\ (remaining (snd (TokenStream.get ts)) < 5)%nat.
Proof.
  intros ts. split; [reflexivity|].
  exact (proj1 (proj2 (get_consumes_its_token ts (Token_of_double 12%float)
                         (snd (TokenStream.get ts)) ltac:(vm_compute; reflexivity)))
           ltac:(discriminate)).
Defined.





(** ** Termination, in terms of the line *)

(** X14: the evaluation of a line terminates.  With more fuel than the
    line has characters, [calculation] does not run out of it, and any
    further fuel leaves the outcome and the final state as they are: the
    depth of the recursion and the turns of the loops are bounded by the
    length of the line. *)
Theorem calculation_terminates (input : string) (vt : VarTable) (fuel : nat) :
  (String.length input < fuel)%nat ->
  let st := (TokenStream.new (IStream.open input), vt) in
  fst (calculation fuel st) <> Timeout
  /\ (forall fuel', (fuel <= fuel')%nat -> calculation fuel' st = calculation fuel st).
Proof.
  intros Hlt st.
  assert (Ht : fst (calculation fuel st) <> Timeout).
  { apply calculation_total. unfold mu, remaining. simpl. lia. }
  split; [exact Ht|].
  intros fuel' Hle. destruct (calculation fuel st) as [r st'] eqn:E.
  now apply calculation_more_fuel with fuel.
Qed.

Lemma calculation_terminates_witness :
  calculation 100 (TokenStream.new (IStream.open "((1+2)*3"), VarTable.empty)
  = calculation 9 (TokenStream.new (IStream.open "((1+2)*3"), VarTable.empty).
Proof.
  apply (proj2 (calculation_terminates "((1+2)*3" VarTable.empty 9 ltac:(repeat constructor))).
  repeat constructor.
Defined.
